(** * Landing-page scoring engine: a shallow embedding of [app/main.py]

    The development follows the layout of the Python module:
    - Python values, dictionaries and exceptions ([PyVal], [Dict], [Err]);
    - binary64 arithmetic as Python exposes it ([PyFloat], [PyNum]);
    - the text signals read off the HTML ([Text]);
    - [_mock_score], [_build_messages], [llm_score_page], [compare_pages]
      ([Scoring]);
    - the properties of the specification, one theorem per claim.

    Modelling conventions.
    - A Python [str] is a Rocq [string]; characters are ASCII, [str.lower]
      and [re.I] act on the letters A-Z only.
    - A Python [int] is a [Z]; a Python [float] is a binary64 value of
      [SpecFloat.spec_float] with the operations of that library
      ([prec = 53], [emax = 1024]).
    - A [dict] is an association list in insertion order with unique keys.
    - A Python function that may raise returns in [result]; the two
      functions that talk to the LLM service thread a counter of the
      attempts made so far, which tells the answers of the service
      apart: an attempt that fails before anything is sent counts too.
    - The built-in [sum] is exact on integers; on floats it is the
      left-to-right addition of CPython up to 3.11 (see [PyNum.sum]). *)

From Stdlib Require Import ZArith Lia List Bool Ascii String.
From Stdlib Require Import Floats.SpecFloat.
Import ListNotations.

Set Warnings "-register-all".
Local Open Scope string_scope.
Local Open Scope Z_scope.

(* ================================================================== *)
(** * Exceptions and the error monad *)
(* ================================================================== *)

Module Err.

(** A raised exception, identified by [e.__class__.__name__]. *)
Inductive exn : Type := Exn (class_name : string).

Definition class_name (e : exn) : string :=
  match e with Exn c => c end.

Definition KeyError : exn := Exn "KeyError".
Definition TypeError : exn := Exn "TypeError".
Definition AttributeError : exn := Exn "AttributeError".
Definition ZeroDivisionError : exn := Exn "ZeroDivisionError".
Definition OverflowError : exn := Exn "OverflowError".

(** [inl e]: the call raised [e]; [inr v]: it returned [v]. *)
Definition result (A : Type) : Type := (exn + A)%type.

Definition ret {A} (a : A) : result A := inr a.
Definition raise {A} (e : exn) : result A := inl e.

Definition bind {A B} (m : result A) (k : A -> result B) : result B :=
  match m with
  | inl e => inl e
  | inr a => k a
  end.

Fixpoint mapM {A B} (f : A -> result B) (l : list A) : result (list B) :=
  match l with
  | [] => ret []
  | a :: t =>
      bind (f a) (fun b => bind (mapM f t) (fun bs => ret (b :: bs)))
  end.

Fixpoint foldM {A B} (f : B -> A -> result B) (l : list A) (b : B)
  : result B :=
  match l with
  | [] => ret b
  | a :: t => bind (f b a) (foldM f t)
  end.

End Err.
Import Err.

Declare Scope err_scope.
Delimit Scope err_scope with err.
Notation "x <- m ;; k" := (bind m (fun x => k))
  (at level 61, m at next level, right associativity) : err_scope.
Local Open Scope err_scope.

(* ================================================================== *)
(** * Python values and dictionaries *)
(* ================================================================== *)

Module Dict.
Section Ops.
Context {V : Type}.

(** Insertion-ordered [dict] with [str] keys. *)
Definition t : Type := list (string * V).

Fixpoint get (k : string) (d : t) : option V :=
  match d with
  | [] => None
  | (k', v) :: r => if String.eqb k k' then Some v else get k r
  end.

(** [k in d] *)
Definition mem (k : string) (d : t) : bool :=
  match get k d with Some _ => true | None => false end.

(** [d[k] = v]: an existing key keeps its position. *)
Fixpoint set (k : string) (v : V) (d : t) : t :=
  match d with
  | [] => [(k, v)]
  | (k', v') :: r =>
      if String.eqb k k' then (k', v) :: r else (k', v') :: set k v r
  end.

(** [d.setdefault(k, v)], as a statement. *)
Definition setdefault (k : string) (v : V) (d : t) : t :=
  if mem k d then d else (d ++ [(k, v)])%list.

Definition keys (d : t) : list string := map fst d.
Definition values (d : t) : list V := map snd d.
End Ops.
Arguments t : clear implicits.
End Dict.

Module PyVal.

(** The values [json.loads] produces, which are also all the values the
    module builds itself. *)
Inductive pyval : Type :=
| VNone
| VBool (b : bool)
| VInt (z : Z)
| VFloat (f : spec_float)
| VStr (s : string)
| VList (l : list pyval)
| VDict (d : list (string * pyval)).

Definition pydict : Type := Dict.t pyval.

(** [v[k]] for a [str] key [k]. *)
Definition getitem (v : pyval) (k : string) : result pyval :=
  match v with
  | VDict d =>
      match Dict.get k d with
      | Some x => ret x
      | None => raise KeyError
      end
  | _ => raise TypeError
  end.

(** Receiver of a [dict] method ([setdefault], [values]) or of [in]:
    anything that is not a [dict] has no such attribute. *)
Definition as_dict (v : pyval) : result pydict :=
  match v with
  | VDict d => ret d
  | _ => raise AttributeError
  end.

(** [d[k]] on a [dict]. *)
Definition lookup (d : pydict) (k : string) : result pyval :=
  match Dict.get k d with
  | Some x => ret x
  | None => raise KeyError
  end.

(** [l or default] on an optional list. *)
Definition list_or {A} (l : option (list A)) (default : list A) : list A :=
  match l with
  | None | Some [] => default
  | Some l => l
  end.

(** [not s] on an optional [str]. *)
Definition str_falsy (s : option string) : bool :=
  match s with
  | None | Some EmptyString => true
  | Some _ => false
  end.

End PyVal.
Import PyVal.

(* ================================================================== *)
(** * Python floats: binary64 *)
(* ================================================================== *)

Module PyFloat.

Definition prec : Z := 53.
Definition emax : Z := 1024.

Definition is_finite (f : spec_float) : bool :=
  match f with
  | S754_zero _ | S754_finite _ _ _ => true
  | S754_infinity _ | S754_nan => false
  end.

Definition is_zero (f : spec_float) : bool :=
  match f with
  | S754_zero _ => true
  | _ => false
  end.

(** The binary64 value nearest to the integer [z] (ties to even). *)
Definition of_int (z : Z) : spec_float :=
  binary_normalize prec emax z 0 false.

(** The binary64 value nearest to the exact quotient [a / b] of two
    integers, [b <> 0]: what [int.__truediv__] computes.  A zero
    numerator takes the sign of the denominator. *)
Definition quot (a b : Z) : spec_float :=
  match a with
  | Z0 => S754_zero (b <? 0)
  | _ =>
      SFdiv prec emax
        (S754_finite (a <? 0) (Z.to_pos (Z.abs a)) 0)
        (S754_finite (b <? 0) (Z.to_pos (Z.abs b)) 0)
  end.

(** Nearest integer to [n / d] for [0 <= n], [0 < d], ties to even. *)
Definition round_half_even (n d : Z) : Z :=
  let q := n / d in
  match 2 * (n mod d) ?= d with
  | Lt => q
  | Gt => q + 1
  | Eq => if Z.even q then q else q + 1
  end.

(** Nearest integer to [m * 2^e * 100], ties to even: the two-decimal
    digit string that [round(x, 2)] asks of the exact value of [x]. *)
Definition hundredths (m : positive) (e : Z) : Z :=
  if 0 <=? e then Zpos m * 100 * 2 ^ e
  else round_half_even (Zpos m * 100) (2 ^ (- e)).

(** [float.__round__(x, 2)]: the exact value of [x] is rounded to two
    decimals, and the decimal [n / 100] is read back as the nearest
    binary64 value.  Infinities and NaN round to themselves; a result
    of zero keeps the sign of [x]. *)
Definition round2 (f : spec_float) : spec_float :=
  match f with
  | S754_finite s m e =>
      match hundredths m e with
      | Zpos n =>
          SFdiv prec emax (S754_finite s n 0) (S754_finite false 100 0)
      | _ => S754_zero s
      end
  | _ => f
  end.

Definition add := SFadd prec emax.
Definition sub := SFsub prec emax.
Definition div := SFdiv prec emax.
Definition opp := SFopp.
Definition eqb := SFeqb.

(** Exact comparison of a float with an integer, as [float.__eq__]
    does. *)
Definition eqb_int (f : spec_float) (z : Z) : bool :=
  match f with
  | S754_zero _ => z =? 0
  | S754_finite s m e =>
      if 0 <=? e then z =? cond_Zopp s (Zpos m * 2 ^ e)
      else z * 2 ^ (- e) =? cond_Zopp s (Zpos m)
  | _ => false
  end.

(** [small B f]: [f] is a zero or a finite float of magnitude below
    [2^B]. *)
Definition small (B : Z) (f : spec_float) : Prop :=
  match f with
  | S754_zero _ => True
  | S754_finite _ m e => Zdigits2 (Zpos m) + e <= B
  | _ => False
  end.

End PyFloat.

(* ================================================================== *)
(** * Python arithmetic on values *)
(* ================================================================== *)

Module PyNum.

(** The numeric tower as the operators see it: [bool] is an [int]. *)
Inductive num : Type :=
| NInt (z : Z)
| NFloat (f : spec_float).

Definition as_num (v : pyval) : option num :=
  match v with
  | VBool b => Some (NInt (if b then 1 else 0))
  | VInt z => Some (NInt z)
  | VFloat f => Some (NFloat f)
  | _ => None
  end.

(** [isinstance(v, (int, float))] *)
Definition is_int_or_float (v : pyval) : bool :=
  match as_num v with Some _ => true | None => false end.

(** [float(z)] of an [int]: raises when [z] is beyond the largest
    finite float. *)
Definition to_float (z : Z) : result spec_float :=
  let f := PyFloat.of_int z in
  if PyFloat.is_finite f then ret f else raise OverflowError.

Definition coerce (n : num) : result spec_float :=
  match n with
  | NInt z => to_float z
  | NFloat f => ret f
  end.

(** [a + b] *)
Definition add (a b : pyval) : result pyval :=
  match as_num a, as_num b with
  | Some (NInt x), Some (NInt y) => ret (VInt (x + y))
  | Some x, Some y =>
      f <- coerce x ;; g <- coerce y ;; ret (VFloat (PyFloat.add f g))
  | _, _ => raise TypeError
  end.

(** [a - b] *)
Definition sub (a b : pyval) : result pyval :=
  match as_num a, as_num b with
  | Some (NInt x), Some (NInt y) => ret (VInt (x - y))
  | Some x, Some y =>
      f <- coerce x ;; g <- coerce y ;; ret (VFloat (PyFloat.sub f g))
  | _, _ => raise TypeError
  end.

(** [a / b] *)
Definition truediv (a b : pyval) : result pyval :=
  match as_num a, as_num b with
  | Some (NInt x), Some (NInt y) =>
      if y =? 0 then raise ZeroDivisionError
      else
        let q := PyFloat.quot x y in
        if PyFloat.is_finite q then ret (VFloat q) else raise OverflowError
  | Some x, Some y =>
      f <- coerce x ;; g <- coerce y ;;
      if PyFloat.is_zero g then raise ZeroDivisionError
      else ret (VFloat (PyFloat.div f g))
  | _, _ => raise TypeError
  end.

(** [-a] *)
Definition neg (a : pyval) : result pyval :=
  match as_num a with
  | Some (NInt x) => ret (VInt (- x))
  | Some (NFloat f) => ret (VFloat (PyFloat.opp f))
  | None => raise TypeError
  end.

(** [round(a, 2)]: an [int] is returned as it is, a [float] is rounded
    to two decimals; the float case raises when a finite argument
    rounds out of range. *)
Definition round2 (a : pyval) : result pyval :=
  match as_num a with
  | Some (NInt x) => ret (VInt x)
  | Some (NFloat f) =>
      let r := PyFloat.round2 f in
      if PyFloat.is_finite f && negb (PyFloat.is_finite r)
      then raise OverflowError
      else ret (VFloat r)
  | None => raise TypeError
  end.

(** [sum(vals)]: the items are added from left to right, starting
    from the [int] 0.  On [int] and [bool] items the sum is the exact
    integer.  On [float] items this is the plain addition of CPython up
    to 3.11; from 3.12 on, [sum] also carries a correction term for the
    rounding errors of its [float] items, and its last digit can differ
    from the one computed here.  The properties below pin the value of
    a sum for integer items only. *)
Definition sum (vals : list pyval) : result pyval :=
  foldM add vals (VInt 0).

(** [a == b] on numbers; [false] as soon as one side is not a number. *)
Definition eqb (a b : pyval) : bool :=
  match as_num a, as_num b with
  | Some (NInt x), Some (NInt y) => x =? y
  | Some (NFloat f), Some (NFloat g) => PyFloat.eqb f g
  | Some (NFloat f), Some (NInt y) => PyFloat.eqb_int f y
  | Some (NInt x), Some (NFloat g) => PyFloat.eqb_int g x
  | _, _ => false
  end.

End PyNum.

(* ================================================================== *)
(** * Strings and the two regular expressions *)
(* ================================================================== *)

Module Text.

Local Open Scope char_scope.

Definition is_upper (c : ascii) : bool :=
  let n := nat_of_ascii c in ((65 <=? n) && (n <=? 90))%nat.

Definition lower_char (c : ascii) : ascii :=
  if is_upper c then ascii_of_nat (nat_of_ascii c + 32) else c.

(** [s.lower()] *)
Fixpoint lower (s : string) : string :=
  match s with
  | EmptyString => EmptyString
  | String c t => String (lower_char c) (lower t)
  end.

(** The characters [str.split()] separates on: TAB, LF, VT, FF, CR,
    the four separators 0x1C-0x1F and the space. *)
Definition is_space (c : ascii) : bool :=
  let n := nat_of_ascii c in
  (((9 <=? n) && (n <=? 13)) || ((28 <=? n) && (n <=? 32)))%nat.

(** [sub in s] *)
Fixpoint contains (sub s : string) : bool :=
  String.prefix sub s ||
  match s with
  | EmptyString => false
  | String _ t => contains sub t
  end.

Definition push (w : string) (ws : list string) : list string :=
  match w with
  | EmptyString => ws
  | _ => w :: ws
  end.

(** One pass from the right: the token being read at the head of [s]
    and the complete tokens after it. *)
Fixpoint split_aux (s : string) : string * list string :=
  match s with
  | EmptyString => (EmptyString, [])
  | String c t =>
      let (w, ws) := split_aux t in
      if is_space c then (EmptyString, push w ws) else (String c w, ws)
  end.

(** [s.split()]: the maximal runs of non-whitespace characters. *)
Definition split (s : string) : list string :=
  let (w, ws) := split_aux s in push w ws.

(** Index of the first [>] of [s]. *)
Fixpoint find_gt (s : string) : option nat :=
  match s with
  | EmptyString => None
  | String c t => if Ascii.eqb c ">" then Some O else option_map S (find_gt t)
  end.

(** [s] without its first [n] characters. *)
Fixpoint drop (n : nat) (s : string) : string :=
  match n, s with
  | O, _ => s
  | S _, EmptyString => EmptyString
  | S k, String _ t => drop k t
  end.

(** Length of the match of [[^>]+>] at the head of [s], if there is
    one: at least one character other than [>], up to and including
    the first [>]. *)
Definition tag_tail (s : string) : option nat :=
  match find_gt s with
  | Some (S k) => Some (S (S k))
  | _ => None
  end.

(** [re.sub(r"<[^>]+>", " ", s)]: the matches are taken leftmost
    first and do not overlap; [skip] counts the characters of the
    current match still to be consumed. *)
Fixpoint sub_tags_from (skip : nat) (s : string) : string :=
  match s with
  | EmptyString => EmptyString
  | String c t =>
      match skip with
      | S k => sub_tags_from k t
      | O =>
          if Ascii.eqb c "<" then
            match tag_tail t with
            | Some k => String " " (sub_tags_from k t)
            | None => String c (sub_tags_from O t)
            end
          else String c (sub_tags_from O t)
      end
  end.

Definition sub_tags (s : string) : string := sub_tags_from O s.

(** [s] starts with [p], letters compared without case ([re.I]). *)
Fixpoint prefix_ci (p s : string) : option string :=
  match p, s with
  | EmptyString, _ => Some s
  | String a p', String b s' =>
      if Ascii.eqb (lower_char a) (lower_char b) then prefix_ci p' s'
      else None
  | String _ _, EmptyString => None
  end.

Fixpoint contains_ci (p s : string) : bool :=
  match prefix_ci p s with
  | Some _ => true
  | None =>
      match s with
      | EmptyString => false
      | String _ t => contains_ci p t
      end
  end.

(** A match of [open [^>]* > .*? close] starts at the head of [s]
    (flags [re.I | re.S]): after [open], the first [>] ends the
    opening tag, and [close] occurs somewhere behind it. *)
Definition element_here (open close s : string) : bool :=
  match prefix_ci open s with
  | Some r =>
      match find_gt r with
      | Some k => contains_ci close (drop (S k) r)
      | None => false
      end
  | None => false
  end.

(** [bool(re.search(open + r"[^>]*>.*?" + close, s, re.I | re.S))] *)
Fixpoint search_element (open close s : string) : bool :=
  element_here open close s ||
  match s with
  | EmptyString => false
  | String _ t => search_element open close t
  end.

(** Some substring of [s] matches [<[^>]+>]: [s] contains a tag span. *)
Fixpoint has_tag (s : string) : bool :=
  match s with
  | EmptyString => false
  | String c t =>
      (Ascii.eqb c "<"
       && match tag_tail t with Some _ => true | None => false end)
      || has_tag t
  end.

End Text.

(* ================================================================== *)
(** * The scoring engine *)
(* ================================================================== *)

Module Scoring.

Import Text.

Definition DEFAULT_CRITERIA : list string :=
  ["clarity"; "credibility"; "cta"].

Definition CTA_KEYWORDS : list string :=
  ["get started"; "start free"; "sign up"; "contact"; "try free"].

Definition TRUST_KEYWORDS : list string :=
  ["trusted by"; "testimonials"; "review"; "reviews"; "privacy"; "secure";
   "https"; "iso"; "gdpr"; "clients"; "partners"].

(** [c in criteria] *)
Definition requested (c : string) (criteria : list string) : bool :=
  existsb (String.eqb c) criteria.

(** [sum(k in txt for k in kws)] *)
Definition count_in (kws : list string) (txt : string) : Z :=
  fold_left (fun n k => n + (if contains k txt then 1 else 0)) kws 0.

(** ** Text signals: the first six assignments of [_mock_score] *)

Record signals : Type := Signals {
  txt : string;
  have_h1 : bool;
  have_title : bool;
  have_btn : bool;
  trust_kw : Z;
  words : Z
}.

Definition extract (html : string) : signals :=
  let txt := lower (sub_tags html) in
  {| txt := txt;
     have_h1 := search_element "<h1" "</h1>" html;
     have_title := search_element "<title" "</title>" html;
     have_btn :=
       contains "<button" (lower html)
       || existsb (fun k => contains k txt) CTA_KEYWORDS;
     trust_kw := count_in TRUST_KEYWORDS txt;
     words := Z.of_nat (List.length (split txt)) |}.

(** ** [_mock_score] *)

(** [{"score": s, "feedback": fb}] *)
Definition entry (s : Z) (fb : string) : pyval :=
  VDict [("score", VInt s); ("feedback", VStr fb)].

(** [max(1, min(10, s))] *)
Definition clamp (s : Z) : Z := Z.max 1 (Z.min 10 s).

Definition clarity (sg : signals) : pyval :=
  let s :=
    4 + (if have_h1 sg then 3 else 0) + (if have_title sg then 2 else 0)
      + (if (50 <=? words sg) && (words sg <=? 400) then 1 else 0) in
  entry (clamp s)
    ((if have_h1 sg then "Clear headline." else "Add a clear H1.")
     ++ (if 400 <? words sg then " Keep copy concise." else "")).

Definition credibility (sg : signals) : pyval :=
  let s := 3 + Z.min 7 (trust_kw sg) in
  let fb_parts :=
    ((if trust_kw sg =? 0 then ["Add testimonials/trust badges."] else [])
     ++ (if contains "https" (txt sg) then []
         else ["Show security/privacy info."]))%list in
  entry (clamp s)
    (match String.concat " " fb_parts with
     | EmptyString => "Good trust signals."
     | fb => fb
     end).

Definition cta (sg : signals) : pyval :=
  let s :=
    4 + (if have_btn sg then 4 else 0) + (if have_h1 sg then 2 else 0) in
  entry (clamp s)
    (if have_btn sg then "CTA visible." else "Add a prominent CTA.").

(** The [scores] dictionary when the [for] loop has finished. *)
Definition mock_scores (sg : signals) (criteria : list string) : pydict :=
  let scores := [] in
  let scores :=
    if requested "clarity" criteria
    then Dict.set "clarity" (clarity sg) scores else scores in
  let scores :=
    if requested "credibility" criteria
    then Dict.set "credibility" (credibility sg) scores else scores in
  let scores :=
    if requested "cta" criteria
    then Dict.set "cta" (cta sg) scores else scores in
  fold_left (fun d c => Dict.setdefault c (entry 5 "OK") d) criteria scores.

(** [sum(v["score"] for v in vs)]: the generator is consumed by the
    running sum, item by item. *)
Definition sum_scores (vs : list pyval) : result pyval :=
  foldM (fun acc v => s <- getitem v "score" ;; PyNum.add acc s) vs (VInt 0).

Definition _mock_score (html : string) (criteria : list string)
  : result pydict :=
  let scores := mock_scores (extract html) criteria in
  total <- sum_scores (Dict.values scores) ;;
  mean <- PyNum.truediv total (VInt (Z.of_nat (List.length scores))) ;;
  overall <- PyNum.round2 mean ;;
  ret [("scores", VDict scores);
       ("overall", overall);
       ("notes", VStr "Mock mode: heuristic scoring")].

(** An entry [{"score": z, "feedback": fb}] with [z] an [int] between 1
    and 10. *)
Definition in_range (kv : string * pyval) : Prop :=
  exists z fb, snd kv = entry z fb /\ 1 <= z <= 10.

(** Every entry of a [scores] dictionary is in range. *)
Definition scored (d : pydict) : Prop := Forall in_range d.

(** The three conditional assignments that precede the loop. *)
Definition named_scores (sg : signals) (cs : list string) : pydict :=
  let scores := [] in
  let scores :=
    if requested "clarity" cs
    then Dict.set "clarity" (clarity sg) scores else scores in
  let scores :=
    if requested "credibility" cs
    then Dict.set "credibility" (credibility sg) scores else scores in
  if requested "cta" cs then Dict.set "cta" (cta sg) scores else scores.


(** ** [_build_messages] *)

Definition nl : string := String (ascii_of_nat 10) EmptyString.
Definition dq : string := String (ascii_of_nat 34) EmptyString.

Record message : Type := Message { role : string; content : string }.

Definition SYSTEM_PROMPT : string :=
  "You are an assistant that evaluates marketing landing pages." ++ nl ++
  "Score each requested criterion from 1 to 10 and give concise, actionable feedback (max ~25 words each)." ++ nl ++
  "Be consistent and fair across pages. When content is missing, explain briefly." ++ nl ++
  "Return ONLY valid JSON. Use integers for scores.".

Definition _build_messages (html : string) (url : option string)
    (criteria : list string) : list message :=
  let crit_list := String.concat nl (map (fun c => "- " ++ c) criteria) in
  let user_prompt :=
    "Evaluate the landing page below." ++ nl ++
    "URL: " ++ (if str_falsy url then "N/A"
                else match url with Some u => u | None => "" end) ++ nl ++
    nl ++
    "Criteria:" ++ nl ++
    crit_list ++ nl ++
    nl ++
    "Return a JSON object with:" ++ nl ++
    "{" ++ nl ++
    "  " ++ dq ++ "scores" ++ dq ++ ": {" ++ nl ++
    "    " ++ dq ++ "<criterion>" ++ dq ++ ": { " ++ dq ++ "score" ++ dq
      ++ ": <int 1-10>, " ++ dq ++ "feedback" ++ dq ++ ": " ++ dq
      ++ "<string>" ++ dq ++ " }" ++ nl ++
    "  }," ++ nl ++
    "  " ++ dq ++ "overall" ++ dq ++ ": <float>," ++ nl ++
    "  " ++ dq ++ "notes" ++ dq ++ ": " ++ dq ++ "<short rationale>" ++ dq
      ++ nl ++
    "}" ++ nl ++
    nl ++
    "Page HTML (truncated OK):" ++ nl ++
    "<<<HTML_START>>>" ++ nl ++
    html ++ nl ++
    "<<<HTML_END>>>" in
  [ {| role := "system"; content := SYSTEM_PROMPT |};
    {| role := "user"; content := user_prompt |} ].

(** ** The response normaliser: the tail of the [try] block *)

(** [data["scores"].setdefault(c, {"score": 0, "feedback": ""})] *)
Definition fill_missing (data : pydict) (c : string) : result pydict :=
  sc <- lookup data "scores" ;;
  scores <- as_dict sc ;;
  ret (Dict.set "scores"
         (VDict (Dict.setdefault c (entry 0 "") scores)) data).

(** ["overall" not in data or not isinstance(data["overall"], (int, float))] *)
Definition overall_unusable (data : pydict) : bool :=
  match Dict.get "overall" data with
  | None => true
  | Some v => negb (PyNum.is_int_or_float v)
  end.

(** [round(sum(vals)/len(vals), 2) if vals else 0.0] *)
Definition mean2 (vals : list pyval) : result pyval :=
  match vals with
  | [] => ret (VFloat (S754_zero false))
  | _ =>
      total <- PyNum.sum vals ;;
      mean <- PyNum.truediv total (VInt (Z.of_nat (List.length vals))) ;;
      PyNum.round2 mean
  end.

Definition normalize (criteria : list string) (data : pyval)
  : result pydict :=
  data <- as_dict data ;;
  let data := Dict.setdefault "scores" (VDict []) data in
  data <- foldM fill_missing criteria data ;;
  data <-
    (if overall_unusable data then
       sc <- lookup data "scores" ;;
       scores <- as_dict sc ;;
       vals <- mapM (fun v => getitem v "score") (Dict.values scores) ;;
       overall <- mean2 vals ;;
       ret (Dict.set "overall" overall data)
     else ret data) ;;
  ret (Dict.setdefault "notes" (VStr "") data).

(** The [scores] mapping of a parsed payload: empty when the key is
    absent, undefined when the value is not an object. *)
Definition payload_scores (data : pydict) : option pydict :=
  match Dict.get "scores" data with
  | None => Some []
  | Some (VDict sc) => Some sc
  | Some _ => None
  end.

(** The [scores] mapping once every requested criterion has been
    defaulted. *)
Definition filled (criteria : list string) (scores : pydict) : pydict :=
  fold_left (fun s c => Dict.setdefault c (entry 0 "") s) criteria scores.

(** The shape every answer of [llm_score_page] has: a [scores] object
    with an entry for each requested criterion, and an [overall]. *)
Definition answers (criteria : list string) (r : pydict) : Prop :=
  exists sc o,
    Dict.get "scores" r = Some (VDict sc) /\
    Dict.get "overall" r = Some o /\
    forall c, In c criteria -> In c (Dict.keys sc).

(** An answer of the heuristic scorer for [html] and [criteria], with
    the given [notes]. *)
Definition heuristic_answer (html : string) (criteria : list string)
    (notes : string) (r : pydict) : Prop :=
  exists o,
    r = [("scores", VDict (mock_scores (extract html) criteria));
         ("overall", VFloat o);
         ("notes", VStr notes)]
    /\ PyFloat.small 9 o.

(** ** The LLM service and the module configuration *)

(** What the first half of the [try] block produces: it raises (import,
    transport, API error, empty choice list, text that is not JSON), or
    [json.loads] returns a value. *)
Inductive reply : Type :=
| Raised (e : exn)
| Parsed (data : pyval).

(** The service answers the [n]-th request sent with key [key] for
    [model] and [messages]. *)
Definition llm : Type := nat -> string -> string -> list message -> reply.

(** A computation that may send requests: from the number of requests
    sent so far to an outcome and the new number. *)
Definition io (A : Type) : Type := nat -> result A * nat.

Definition io_bind {A B} (m : io A) (k : A -> io B) : io B :=
  fun n =>
    match m n with
    | (inl e, n') => (inl e, n')
    | (inr a, n') => k a n'
    end.

Definition io_lift {A} (r : result A) : io A := fun n => (r, n).

(** The body of [POST /score]. *)
Module ScoreRequest.
Record t : Type := {
  html : string;
  url : option string;
  criteria : option (list string)
}.
End ScoreRequest.

Record CompareRequest : Type := {
  before_html : string;
  after_html : string;
  url : option string;
  criteria : option (list string)
}.

Section Engine.

Variable USE_MOCK : bool.
Variable OPENAI_API_KEY : option string.
Variable client : llm.

(** [USE_MOCK or not OPENAI_API_KEY] *)
Definition heuristic_mode : bool :=
  USE_MOCK || str_falsy OPENAI_API_KEY.

(** The first half of the [try] block: the [n]-th request, up to and
    including [json.loads]. *)
Definition request (html : string) (url : option string)
    (criteria : list string) (model : string) (n : nat) : reply :=
  let key := match OPENAI_API_KEY with Some k => k | None => "" end in
  client n key model (_build_messages html url criteria).

(** The [try] block. *)
Definition llm_attempt (html : string) (url : option string)
    (criteria : list string) (model : string) (n : nat) : result pydict :=
  match request html url criteria model n with
  | Raised e => raise e
  | Parsed data => normalize criteria data
  end.

(** The [except Exception as e] handler. *)
Definition fallback (html : string) (criteria : list string) (e : exn)
  : result pydict :=
  mock <- _mock_score html criteria ;;
  ret (Dict.set "notes"
         (VStr ("Mock fallback due to error: " ++ class_name e)) mock).

Definition llm_score_page (html : string) (url : option string)
    (criteria : option (list string)) (model : string) : io pydict :=
  fun n =>
    let criteria := list_or criteria DEFAULT_CRITERIA in
    if heuristic_mode then (_mock_score html criteria, n)
    else
      match llm_attempt html url criteria model n with
      | inr data => (ret data, S n)
      | inl e => (fallback html criteria e, S n)
      end.

(** One round of the [for c in criteria + ["overall"]] loop. *)
Definition side (r : pydict) (c : string) : result pyval :=
  sc <- lookup r "scores" ;;
  scores <- as_dict sc ;;
  if Dict.mem c scores
  then e <- lookup scores c ;; getitem e "score"
  else lookup r "overall".

Definition delta_step (before after : pydict) (delta : pydict)
    (c : string) : result pydict :=
  b <- side before c ;;
  a <- side after c ;;
  d <- PyNum.sub a b ;;
  r <- PyNum.round2 d ;;
  ret (Dict.set c r delta).

(** The value the loop stores under [c]. *)
Definition delta_value (before after : pydict) (c : string) : result pyval :=
  b <- side before c ;;
  a <- side after c ;;
  d <- PyNum.sub a b ;;
  PyNum.round2 d.

Definition compare_pages (req : CompareRequest) : io pydict :=
  let criteria := list_or (criteria req) DEFAULT_CRITERIA in
  io_bind (llm_score_page (before_html req) (url req) (Some criteria)
             "gpt-5-mini")
    (fun before =>
  io_bind (llm_score_page (after_html req) (url req) (Some criteria)
             "gpt-5-mini")
    (fun after =>
  io_lift (
    delta <- foldM (delta_step before after)
               (criteria ++ ["overall"])%list [] ;;
    ret [("before", VDict before);
         ("after", VDict after);
         ("delta", VDict delta)]))).

(** ** The other two routes *)

(** [GET /healthz] *)
Definition healthz : pydict :=
  [("status", VStr "ok"); ("mock", VBool USE_MOCK)].

(** [POST /score] *)
Definition score_page (req : ScoreRequest.t) : io pydict :=
  llm_score_page (ScoreRequest.html req) (ScoreRequest.url req)
    (ScoreRequest.criteria req) "gpt-5-mini".

End Engine.

(** ** Vocabulary of the specification *)

(** [r["scores"][c]["score"]] *)
Definition score_at (r : pydict) (c : string) : result pyval :=
  sc <- lookup r "scores" ;;
  scores <- as_dict sc ;;
  e <- lookup scores c ;;
  getitem e "score".

(** [r["scores"][c]["feedback"]] *)
Definition feedback_at (r : pydict) (c : string) : result pyval :=
  sc <- lookup r "scores" ;;
  scores <- as_dict sc ;;
  e <- lookup scores c ;;
  getitem e "feedback".

(** The keys of [r["scores"]] are exactly the criteria [cs]. *)
Definition exactly_requested (cs : list string) (r : pydict) : Prop :=
  exists sc,
    Dict.get "scores" r = Some (VDict sc) /\
    forall k, In k (Dict.keys sc) <-> In k cs.

(** Every entry of [r["scores"]] carries an [int] score from 1 to 10. *)
Definition scores_in_range (r : pydict) : Prop :=
  exists sc,
    Dict.get "scores" r = Some (VDict sc) /\
    forall k e,
      Dict.get k sc = Some e ->
      exists z, getitem e "score" = inr (VInt z) /\ 1 <= z <= 10.

(** [delta["overall"]] of a comparison is the rounded difference of the
    two [overall] fields. *)
Definition overall_delta_is_aggregate (r : pydict) : Prop :=
  exists before after delta ob oa d v,
    Dict.get "before" r = Some (VDict before) /\
    Dict.get "after" r = Some (VDict after) /\
    Dict.get "delta" r = Some (VDict delta) /\
    Dict.get "overall" before = Some ob /\
    Dict.get "overall" after = Some oa /\
    PyNum.sub oa ob = inr d /\
    PyNum.round2 d = inr v /\
    Dict.get "overall" delta = Some v.

(** The specification's words on the recomputed [overall]: "the mean of
    all per-criterion scores, rounded to 2 decimals". *)


(** The exact sum of integer scores. *)
Definition total (zs : list Z) : Z := fold_right Z.add 0 zs.



(** All signals of a page are off, and [words] counts the tokens of the
    page. *)
Definition signals_off (html : string) : Prop :=
  let sg := extract html in
  have_h1 sg = false /\ have_title sg = false /\ have_btn sg = false /\
  trust_kw sg = 0 /\ words sg = Z.of_nat (List.length (split html)).

(** A service that answers every request with the same parsed payload,
    and one whose every request raises. *)
Definition replies (data : pyval) : llm := fun _ _ _ _ => Parsed data.
Definition fails (cls : string) : llm := fun _ _ _ _ => Raised (Exn cls).

(** Two successive calls, the second one starting where the first one
    stopped. *)
Definition twice {A} (m : io A) : io (A * A) :=
  io_bind m (fun a => io_bind m (fun b => io_lift (ret (a, b)))).

End Scoring.

(* ================================================================== *)
(** * Facts about binary64 rounding *)
(* ================================================================== *)

Import Scoring.
Local Open Scope list_scope.

Module FloatFacts.
Import PyFloat.

Lemma digits2_pos_size p : digits2_pos p = Pos.size p.
Proof. induction p; simpl; congruence. Qed.

Lemma Zdigits2_log2 m : 0 < m -> Zdigits2 m = Z.log2 m + 1.
Proof.
  destruct m as [|p|p]; try lia. intros _. simpl Zdigits2.
  rewrite digits2_pos_size. destruct p; simpl; lia.
Qed.

Lemma Zdigits2_nonneg m : 0 <= Zdigits2 m.
Proof. destruct m; simpl; lia. Qed.

(** [x < 2^n] bounds the number of digits. *)
Lemma Zdigits2_le m n : 0 <= m -> 0 <= n -> m < 2 ^ n -> Zdigits2 m <= n.
Proof.
  intros Hm Hn H. destruct (Z.eq_dec m 0) as [->|Hz]; [simpl; lia|].
  rewrite Zdigits2_log2 by lia.
  apply Z.log2_lt_pow2 in H; lia.
Qed.

Lemma Zdigits2_gt m : 0 <= m -> m < 2 ^ Zdigits2 m.
Proof.
  intros Hm. destruct (Z.eq_dec m 0) as [->|Hz]; [simpl; lia|].
  rewrite Zdigits2_log2 by lia.
  pose proof (Z.log2_spec m ltac:(lia)). unfold Z.succ in *. lia.
Qed.

Lemma shr_1_m r : 0 <= shr_m r -> shr_m (shr_1 r) = shr_m r / 2.
Proof.
  destruct r as [m rr s]. simpl. intros Hm.
  rewrite <- Z.div2_div.
  destruct m as [|[p|p|]|p]; try reflexivity; lia.
Qed.

Lemma iter_shr_m p :
  forall r, 0 <= shr_m r ->
            shr_m (iter_pos shr_1 p r) = shr_m r / 2 ^ Zpos p.
Proof.
  induction p as [p IH|p IH|]; intros r Hr; simpl iter_pos.
  - assert (H1 : 0 <= shr_m (shr_1 r))
      by (rewrite shr_1_m by assumption; apply Z.div_pos; lia).
    assert (Hp : 0 < 2 ^ Zpos p) by (apply Z.pow_pos_nonneg; lia).
    assert (H2 : 0 <= shr_m (iter_pos shr_1 p (shr_1 r)))
      by (rewrite IH by assumption; apply Z.div_pos; lia).
    rewrite IH, IH, shr_1_m by assumption.
    rewrite !Z.div_div by lia. f_equal.
    replace (Zpos p~1) with (1 + Zpos p + Zpos p) by lia.
    rewrite !Z.pow_add_r by lia. lia.
  - assert (Hp : 0 < 2 ^ Zpos p) by (apply Z.pow_pos_nonneg; lia).
    assert (H2 : 0 <= shr_m (iter_pos shr_1 p r))
      by (rewrite IH by assumption; apply Z.div_pos; lia).
    rewrite IH, IH by assumption.
    rewrite !Z.div_div by lia. f_equal.
    replace (Zpos p~0) with (Zpos p + Zpos p) by lia.
    rewrite !Z.pow_add_r by lia. lia.
  - rewrite shr_1_m by assumption. reflexivity.
Qed.

(** Dividing by [2^k] removes [k] digits. *)
Lemma Zdigits2_div_pow2 m k :
  0 <= m -> 0 <= k -> 0 < m / 2 ^ k ->
  Zdigits2 (m / 2 ^ k) = Zdigits2 m - k.
Proof.
  intros Hm Hk Hq.
  assert (Hp : 0 < 2 ^ k) by (apply Z.pow_pos_nonneg; lia).
  assert (Hm' : 0 < m).
  { destruct (Z.eq_dec m 0) as [->|]; [rewrite Z.div_0_l in Hq; lia | lia]. }
  rewrite !Zdigits2_log2 by lia.
  rewrite <- Z.shiftr_div_pow2 by lia.
  rewrite Z.log2_shiftr by lia.
  assert (2 ^ k <= m).
  { destruct (Z.lt_ge_cases m (2 ^ k)) as [Hlt|]; [|assumption].
    rewrite Z.div_small in Hq by lia. lia. }
  apply Z.log2_le_pow2 in H; lia.
Qed.

Lemma shr_record_of_loc_m m l : shr_m (shr_record_of_loc m l) = m.
Proof. destruct l as [|[]]; reflexivity. Qed.

(** What [shr_fexp] does to a non-negative mantissa. *)
Lemma shr_fexp_spec m e l :
  0 <= m ->
  snd (shr_fexp prec emax m e l)
  = Z.max e (fexp prec emax (Zdigits2 m + e)) /\
  shr_m (fst (shr_fexp prec emax m e l))
  = m / 2 ^ (snd (shr_fexp prec emax m e l) - e).
Proof.
  intros Hm. set (e' := Z.max e (fexp prec emax (Zdigits2 m + e))).
  assert (Hs : snd (shr_fexp prec emax m e l) = e').
  { unfold shr_fexp, shr.
    destruct (fexp prec emax (Zdigits2 m + e) - e) eqn:E; simpl; lia. }
  split; [exact Hs|]. rewrite Hs. unfold shr_fexp, shr.
  destruct (fexp prec emax (Zdigits2 m + e) - e) as [|p|p] eqn:E; simpl.
  - replace (e' - e) with 0 by lia.
    rewrite shr_record_of_loc_m, Z.div_1_r. reflexivity.
  - replace (e' - e) with (Zpos p) by lia.
    rewrite iter_shr_m by (rewrite shr_record_of_loc_m; assumption).
    rewrite shr_record_of_loc_m. reflexivity.
  - replace (e' - e) with 0 by lia.
    rewrite shr_record_of_loc_m, Z.div_1_r. reflexivity.
Qed.

Lemma round_nearest_even_range m l :
  0 <= m -> m <= round_nearest_even m l <= m + 1.
Proof.
  intros Hm. destruct l as [|[]]; simpl; try lia.
  destruct (Z.even m); lia.
Qed.

Lemma Zdigits2_mono a b : 0 <= a -> a <= b -> Zdigits2 a <= Zdigits2 b.
Proof.
  intros Ha Hab. destruct (Z.eq_dec a 0) as [->|].
  - apply Zdigits2_nonneg.
  - rewrite !Zdigits2_log2 by lia.
    pose proof (Z.log2_le_mono a b Hab). lia.
Qed.

Lemma Zdigits2_succ m : 0 <= m -> Zdigits2 (m + 1) <= Zdigits2 m + 1.
Proof.
  intros Hm. destruct (Z.eq_dec m 0) as [->|]; [simpl; lia|].
  rewrite !Zdigits2_log2 by lia.
  pose proof (Z.log2_succ_le m). unfold Z.succ in *. lia.
Qed.

(** Rounding a non-negative mantissa of bounded magnitude never
    overflows, and the magnitude grows by at most one binade. *)
Lemma round_aux_small sx mx ex lx K :
  0 <= mx -> Zdigits2 mx + ex <= K -> ex <= K -> ex <= 971 ->
  -1074 <= K <= 1023 ->
  small (K + 1) (binary_round_aux prec emax sx mx ex lx).
Proof.
  intros Hm Hmag Hex Hex' HK. unfold binary_round_aux.
  destruct (shr_fexp_spec mx ex lx Hm) as [He1 Hm1].
  destruct (shr_fexp prec emax mx ex lx) as [r1 e1]. simpl in He1, Hm1.
  set (m1 := round_nearest_even (shr_m r1) (loc_of_shr_record r1)).
  assert (Hfexp : forall x, fexp prec emax x = Z.max (x - 53) (-1074))
    by reflexivity.
  rewrite Hfexp in He1.
  assert (Hp1 : 0 < 2 ^ (e1 - ex)) by (apply Z.pow_pos_nonneg; lia).
  assert (Hr1 : 0 <= shr_m r1) by (rewrite Hm1; apply Z.div_pos; lia).
  pose proof (round_nearest_even_range (shr_m r1) (loc_of_shr_record r1) Hr1)
    as Hrange. fold m1 in Hrange.
  assert (He1K : e1 <= K /\ e1 <= 971) by lia.
  assert (Hmag1 : Zdigits2 m1 + e1 <= K + 1).
  { pose proof (Zdigits2_mono m1 (shr_m r1 + 1) ltac:(lia) ltac:(lia)).
    pose proof (Zdigits2_succ (shr_m r1) Hr1).
    destruct (Z.eq_dec (shr_m r1) 0) as [Hz|Hnz].
    - rewrite Hz in *. simpl in *. lia.
    - assert (Zdigits2 (shr_m r1) = Zdigits2 mx - (e1 - ex)).
      { rewrite Hm1. apply Zdigits2_div_pow2; lia. }
      lia. }
  destruct (shr_fexp_spec m1 e1 loc_Exact ltac:(lia)) as [He2 Hm2].
  destruct (shr_fexp prec emax m1 e1 loc_Exact) as [r2 e2].
  simpl in He2, Hm2. rewrite Hfexp in He2.
  assert (Hp2 : 0 < 2 ^ (e2 - e1)) by (apply Z.pow_pos_nonneg; lia).
  assert (Hr2 : 0 <= shr_m r2) by (rewrite Hm2; apply Z.div_pos; lia).
  destruct (shr_m r2) as [|m2|m2] eqn:Em2; [exact I| |lia].
  assert (He2' : e2 <= 971) by lia.
  replace (emax - prec) with 971 by reflexivity.
  destruct (Z.leb_spec e2 971); [|lia].
  assert (Zdigits2 (Zpos m2) = Zdigits2 m1 - (e2 - e1)).
  { rewrite Hm2. apply Zdigits2_div_pow2; lia. }
  unfold small. lia.
Qed.

Lemma div_eucl_pair a b : Z.div_eucl a b = (a / b, a mod b).
Proof. unfold Z.div, Z.modulo. destruct (Z.div_eucl a b); reflexivity. Qed.

(** The quotient of two positive integers whose sizes differ by at
    most [J] bits is a finite float below [2^(J+2)]. *)
Lemma div_small sa sb (a b : positive) J :
  Z.log2 (Zpos a) - Z.log2 (Zpos b) <= J -> 0 <= J <= 1021 ->
  small (J + 2)
    (SFdiv prec emax (S754_finite sa a 0) (S754_finite sb b 0)).
Proof.
  intros HJ HJ'. unfold SFdiv, SFdiv_core_binary. cbv zeta.
  set (e' := Z.min _ (0 - 0)).
  set (s := 0 - 0 - e').
  set (m' := match s with
             | 0 => Zpos a
             | Zpos _ => Z.shiftl (Zpos a) s
             | Zneg _ => 0
             end).
  assert (He' : e' <= 0) by (subst e'; lia).
  assert (Hs : s = - e') by (subst s; lia).
  clearbody s e'.
  assert (Hm' : m' = Zpos a * 2 ^ s).
  { subst m'. destruct s; try lia. apply Z.shiftl_mul_pow2; lia. }
  clearbody m'.
  rewrite div_eucl_pair.
  assert (Hp : 0 < 2 ^ s) by (apply Z.pow_pos_nonneg; lia).
  assert (Hq : 0 <= m' / Zpos b) by (apply Z.div_pos; nia).
  replace (J + 2) with (J + 1 + 1) by lia.
  apply round_aux_small; try lia.
  destruct (Z.eq_dec (m' / Zpos b) 0) as [->|Hnz]; [simpl; lia|].
  rewrite Zdigits2_log2 by lia.
  pose proof (Z.log2_mul_below (m' / Zpos b) (Zpos b) ltac:(lia) ltac:(lia)).
  pose proof (Z.mul_div_le m' (Zpos b) ltac:(lia)).
  pose proof (Z.log2_le_mono (m' / Zpos b * Zpos b) m' ltac:(lia)).
  assert (Z.log2 m' = s + Z.log2 (Zpos a))
    by (rewrite Hm'; apply Z.log2_mul_pow2; lia).
  lia.
Qed.

Lemma small_finite B f : small B f -> is_finite f = true.
Proof. destruct f; simpl; intuition. Qed.

Lemma small_mono B B' f : B <= B' -> small B f -> small B' f.
Proof. destruct f; simpl; lia. Qed.

(** [a / b] for positive integers with [a < 2^J * b]. *)
Lemma quot_small a b J :
  0 < a -> 0 < b -> a < 2 ^ J * b -> 0 <= J <= 1021 ->
  small (J + 2) (quot a b).
Proof.
  intros Ha Hb Hab HJ. unfold quot.
  destruct a as [|a|a]; try lia. destruct b as [|b|b]; try lia.
  apply div_small; [|assumption]. simpl Z.abs. rewrite !Pos2Z.id.
  assert (Z.log2 (Zpos a) <= Z.log2 (Zpos b * 2 ^ J))
    by (apply Z.log2_le_mono; lia).
  rewrite Z.log2_mul_pow2 in H by lia. lia.
Qed.

Lemma round_half_even_range n d :
  0 <= n -> 0 < d -> n / d <= round_half_even n d <= n / d + 1.
Proof.
  intros Hn Hd. unfold round_half_even.
  destruct (2 * (n mod d) ?= d); [destruct (Z.even (n / d))| |]; lia.
Qed.

(** Size of the two-decimal digit string of a float below [2^K]. *)
Lemma hundredths_bound m e K :
  Zdigits2 (Zpos m) + e <= K -> 0 <= K ->
  0 <= hundredths m e /\ Z.log2 (hundredths m e) <= K + 7.
Proof.
  intros Hmag HK. unfold hundredths.
  rewrite Zdigits2_log2 in Hmag by lia.
  pose proof (Z.log2_mul_above (Zpos m) 100 ltac:(lia) ltac:(lia)) as Hmul.
  change (Z.log2 100) with 6 in Hmul.
  destruct (Z.leb_spec 0 e) as [He|He].
  - assert (Hp : 0 < 2 ^ e) by (apply Z.pow_pos_nonneg; lia).
    split; [nia|]. rewrite Z.log2_mul_pow2 by lia. lia.
  - assert (Hp : 0 < 2 ^ (- e)) by (apply Z.pow_pos_nonneg; lia).
    pose proof (round_half_even_range (Zpos m * 100) (2 ^ (- e))
                  ltac:(lia) Hp) as Hr.
    set (q := Zpos m * 100 / 2 ^ (- e)) in *.
    assert (Hq : 0 <= q) by (apply Z.div_pos; lia).
    split; [lia|].
    set (n := round_half_even _ _) in *.
    pose proof (Z.log2_le_mono n (Z.succ q) ltac:(lia)) as H1.
    pose proof (Z.log2_succ_le q) as H2.
    destruct (Z.eq_dec q 0) as [Hz|Hnz].
    + rewrite Hz in *. simpl in *. lia.
    + pose proof (Z.log2_mul_below q (2 ^ (- e)) ltac:(lia) Hp) as H3.
      rewrite Z.log2_pow2 in H3 by lia.
      pose proof (Z.mul_div_le (Zpos m * 100) (2 ^ (- e)) Hp) as H4.
      fold q in H4.
      pose proof (Z.log2_le_mono (q * 2 ^ (- e)) (Zpos m * 100)
                    ltac:(lia)) as H5.
      unfold Z.succ in *. lia.
Qed.

(** [round(x, 2)] of a float below [2^K] stays finite. *)
Lemma round2_small f K :
  small K f -> 0 <= K <= 1015 -> small (K + 3) (round2 f).
Proof.
  intros Hf HK. destruct f as [s|s| |s m e]; simpl in Hf |- *; try tauto.
  destruct (hundredths_bound m e K Hf ltac:(lia)) as [Hn Hlog].
  destruct (hundredths m e) as [|n|n]; [exact I| |lia].
  replace (K + 3) with (K + 1 + 2) by lia.
  apply div_small; [|lia].
  change (Z.log2 100) with 6. lia.
Qed.

Lemma iter_xO m d : Zpos (Pos.iter xO m d) = Zpos m * 2 ^ Zpos d.
Proof.
  induction d as [|d IH] using Pos.peano_ind.
  - simpl. lia.
  - rewrite Pos.iter_succ, Pos2Z.inj_xO, IH, Pos2Z.inj_succ, Z.pow_succ_r
      by lia. lia.
Qed.

(** [shl_align] rewrites [m * 2^e] at the smaller exponent. *)
Lemma shl_align_spec m e e' :
  snd (shl_align m e e') = Z.min e e' /\
  Zpos (fst (shl_align m e e')) = Zpos m * 2 ^ (e - Z.min e e').
Proof.
  unfold shl_align. destruct (e' - e) as [|d|d] eqn:E; simpl.
  - replace (Z.min e e') with e by lia.
    rewrite Z.sub_diag, Z.pow_0_r. lia.
  - replace (Z.min e e') with e by lia.
    rewrite Z.sub_diag, Z.pow_0_r. lia.
  - replace (Z.min e e') with e' by lia.
    replace (e - e') with (Zpos d) by lia.
    split; [reflexivity | apply iter_xO].
Qed.

Lemma binary_round_small s m e K :
  Zdigits2 (Zpos m) + e <= K -> -1074 <= K <= 1023 ->
  small (K + 1) (binary_round prec emax s m e).
Proof.
  intros Hmag HK. unfold binary_round.
  pose proof (shl_align_spec m e
                (fexp prec emax (Zpos (digits2_pos m) + e))) as [He Hm].
  destruct (shl_align m e _) as [mz ez]. cbn [fst snd] in He, Hm.
  rewrite <- He in Hm.
  change (fexp prec emax (Zpos (digits2_pos m) + e))
    with (Z.max (Zdigits2 (Zpos m) + e - 53) (-1074)) in He.
  pose proof (Zdigits2_log2 (Zpos m) ltac:(lia)) as Hd.
  pose proof (Z.log2_nonneg (Zpos m)) as Hl.
  apply round_aux_small; try lia.
  rewrite Zdigits2_log2, Hm, Z.log2_mul_pow2 by lia. lia.
Qed.

Lemma aligned_bound s m e ez K :
  Zdigits2 (Zpos m) + e <= K -> ez <= e ->
  Z.abs (cond_Zopp s (Zpos (fst (shl_align m e ez)))) < 2 ^ (K - ez).
Proof.
  intros Hmag Hez.
  destruct (shl_align_spec m e ez) as [_ Hm].
  rewrite Hm. replace (Z.min e ez) with ez by lia.
  assert (Hp : 0 < 2 ^ (e - ez)) by (apply Z.pow_pos_nonneg; lia).
  assert (Hpos : 0 < Zpos m * 2 ^ (e - ez)) by (apply Z.mul_pos_pos; lia).
  replace (Z.abs _) with (Zpos m * 2 ^ (e - ez))
    by (destruct s; unfold cond_Zopp; lia).
  pose proof (Zdigits2_gt (Zpos m) ltac:(lia)) as Hlt.
  pose proof (Zdigits2_nonneg (Zpos m)).
  assert (Zdigits2 (Zpos m) <> 0) by (simpl; lia).
  assert (2 ^ Zdigits2 (Zpos m) <= 2 ^ (K - e))
    by (apply Z.pow_le_mono_r; lia).
  replace (K - ez) with ((K - e) + (e - ez)) by lia.
  rewrite Z.pow_add_r by lia. nia.
Qed.

Lemma binary_normalize_small D e K :
  Z.abs D < 2 ^ (K - e) -> e <= K -> -1074 <= K <= 1023 ->
  small (K + 1) (binary_normalize prec emax D e false).
Proof.
  intros HD He HK.
  assert (Hdig : Zdigits2 (Z.abs D) <= K - e)
    by (apply Zdigits2_le; lia).
  destruct D as [|p|p]; simpl binary_normalize; [exact I| |];
    apply binary_round_small; cbn [Z.abs] in Hdig; lia.
Qed.

(** The difference of two floats below [2^K] is finite. *)
Lemma sub_small x y K :
  small K x -> small K y -> -1074 <= K <= 1022 ->
  small (K + 2) (sub x y).
Proof.
  intros Hx Hy HK.
  destruct x as [sx|sx| |sx mx ex], y as [sy|sy| |sy my ey];
    unfold small in Hx, Hy; try tauto.
  - destruct sx, sy; exact I.
  - unfold sub, SFsub, small. lia.
  - unfold sub, SFsub, small. lia.
  - unfold sub, SFsub. cbv zeta.
    pose proof (aligned_bound sx mx ex (Z.min ex ey) K Hx ltac:(lia)).
    pose proof (aligned_bound sy my ey (Z.min ex ey) K Hy ltac:(lia)).
    pose proof (Zdigits2_log2 (Zpos mx) ltac:(lia)).
    pose proof (Z.log2_nonneg (Zpos mx)).
    replace (K + 2) with (K + 1 + 1) by lia.
    apply binary_normalize_small; try lia.
    replace (K + 1 - Z.min ex ey) with (1 + (K - Z.min ex ey)) by lia.
    rewrite Z.pow_add_r by lia. change (2 ^ 1) with 2.
    change (IntDef.Z.min ex ey) with (Z.min ex ey). lia.
Qed.

(** ** Sign symmetry *)

Lemma round_aux_opp s m e l :
  binary_round_aux prec emax (negb s) m e l
  = SFopp (binary_round_aux prec emax s m e l).
Proof.
  unfold binary_round_aux.
  destruct (shr_fexp prec emax m e l) as [r1 e1].
  destruct (shr_fexp prec emax _ e1 loc_Exact) as [r2 e2].
  destruct (shr_m r2); try reflexivity.
  destruct (e2 <=? emax - prec); reflexivity.
Qed.

Lemma binary_normalize_opp D e :
  D <> 0 ->
  binary_normalize prec emax (- D) e false
  = SFopp (binary_normalize prec emax D e false).
Proof.
  intros HD. destruct D as [|p|p]; [lia| |]; simpl; unfold binary_round;
    destruct (shl_align p e _) as [mz ez].
  - apply (round_aux_opp false).
  - rewrite <- (round_aux_opp true). reflexivity.
Qed.

(** Subtraction in the other order gives the opposite, up to the sign
    of a zero result. *)
Lemma sub_antisym x y :
  is_finite x = true -> is_finite y = true ->
  sub x y = SFopp (sub y x) \/
  (is_zero (sub x y) = true /\ is_zero (sub y x) = true).
Proof.
  intros Hx Hy.
  destruct x as [sx|sx| |sx mx ex], y as [sy|sy| |sy my ey];
    try discriminate.
  - right. destruct sx, sy; split; reflexivity.
  - left. reflexivity.
  - left. simpl. rewrite negb_involutive. reflexivity.
  - unfold sub, SFsub. cbv zeta. rewrite (Z.min_comm ey ex).
    set (A := cond_Zopp sx _). set (B := cond_Zopp sy _).
    destruct (Z.eq_dec (B - A) 0) as [Hz|Hnz].
    + right. replace (A - B) with 0 by lia. rewrite Hz. split; reflexivity.
    + left. replace (A - B) with (- (B - A)) by lia.
      apply binary_normalize_opp; assumption.
Qed.

Lemma round2_opp f : round2 (SFopp f) = SFopp (round2 f).
Proof.
  destruct f as [s|s| |s m e]; try reflexivity. simpl.
  destruct (hundredths m e) as [|n|n]; try reflexivity.
  unfold SFdiv. destruct (SFdiv_core_binary _ _ _ _ _ _) as [[mz ez] lz].
  rewrite !xorb_false_r. apply round_aux_opp.
Qed.

Lemma round2_zero f : is_zero f = true -> is_zero (round2 f) = true.
Proof. destruct f; simpl; congruence. Qed.

Lemma eqb_refl f : is_finite f = true -> eqb f f = true.
Proof.
  destruct f as [s|s| |s m e]; try discriminate; intros _;
    unfold eqb, SFeqb; simpl; [reflexivity|].
  rewrite Z.compare_refl.
  change (Pos.compare_cont Eq m m) with (Pos.compare m m).
  rewrite Pos.compare_refl. destruct s; reflexivity.
Qed.

Lemma eqb_zero f g :
  is_zero f = true -> is_zero g = true -> eqb f (opp g) = true.
Proof. destruct f, g; simpl; try discriminate; reflexivity. Qed.

Lemma is_finite_opp f : is_finite (SFopp f) = is_finite f.
Proof. destruct f; reflexivity. Qed.

(** The rounded difference is antisymmetric under [==]. *)
Lemma round2_sub_antisym x y K :
  small K x -> small K y -> 0 <= K <= 1000 ->
  eqb (round2 (sub x y)) (opp (round2 (sub y x))) = true.
Proof.
  intros Hx Hy HK.
  pose proof (sub_small y x K Hy Hx ltac:(lia)) as Hd.
  pose proof (round2_small _ _ Hd ltac:(lia)) as Hr.
  destruct (sub_antisym x y (small_finite _ _ Hx) (small_finite _ _ Hy))
    as [E|[Z1 Z2]].
  - rewrite E, round2_opp. apply eqb_refl.
    unfold opp. rewrite is_finite_opp. exact (small_finite _ _ Hr).
  - apply eqb_zero; apply round2_zero; assumption.
Qed.

End FloatFacts.

(* ================================================================== *)
(** * Facts about dictionaries *)
(* ================================================================== *)

Module DictFacts.
Section Facts.
Context {V : Type}.
Implicit Types (d : Dict.t V) (k : string) (v : V).

Lemma get_set_same k v d : Dict.get k (Dict.set k v d) = Some v.
Proof.
  induction d as [|[k' v'] r IH]; simpl.
  - rewrite String.eqb_refl. reflexivity.
  - destruct (String.eqb k k') eqn:E; simpl; rewrite E; auto.
Qed.

Lemma get_set_other k k' v d :
  k <> k' -> Dict.get k (Dict.set k' v d) = Dict.get k d.
Proof.
  intros Hne. apply String.eqb_neq in Hne.
  induction d as [|[k0 v0] r IH]; simpl.
  - rewrite Hne. reflexivity.
  - destruct (String.eqb k' k0) eqn:E; simpl.
    + apply String.eqb_eq in E. subst k0. rewrite Hne. reflexivity.
    + rewrite IH. reflexivity.
Qed.

Lemma get_app k d d' :
  Dict.get k (d ++ d')
  = match Dict.get k d with Some x => Some x | None => Dict.get k d' end.
Proof.
  induction d as [|[k0 v0] r IH]; simpl; [reflexivity|].
  destruct (String.eqb k k0); auto.
Qed.

Lemma get_setdefault k k' v d :
  Dict.get k (Dict.setdefault k' v d)
  = match Dict.get k d with
    | Some x => Some x
    | None => if String.eqb k k' then Some v else None
    end.
Proof.
  unfold Dict.setdefault, Dict.mem.
  destruct (Dict.get k' d) eqn:E'.
  - destruct (Dict.get k d) eqn:E; [reflexivity|].
    destruct (String.eqb_spec k k'); [congruence | reflexivity].
  - rewrite get_app. simpl. reflexivity.
Qed.

Lemma mem_keys k d : Dict.mem k d = true <-> In k (Dict.keys d).
Proof.
  unfold Dict.mem.
  induction d as [|[k0 v0] r IH]; simpl; [intuition discriminate|].
  destruct (String.eqb_spec k k0).
  - subst. intuition.
  - rewrite IH. intuition congruence.
Qed.

Lemma get_none_keys k d : Dict.get k d = None <-> ~ In k (Dict.keys d).
Proof.
  rewrite <- mem_keys. unfold Dict.mem.
  destruct (Dict.get k d); intuition congruence.
Qed.

Lemma set_get k v d : Dict.get k d = Some v -> Dict.set k v d = d.
Proof.
  induction d as [|[k0 v0] r IH]; simpl; [discriminate|].
  destruct (String.eqb_spec k k0).
  - intros [= ->]. subst. reflexivity.
  - intros H. rewrite IH by assumption. reflexivity.
Qed.

Lemma set_set k v v' d : Dict.set k v (Dict.set k v' d) = Dict.set k v d.
Proof.
  induction d as [|[k0 v0] r IH]; simpl.
  - rewrite String.eqb_refl. reflexivity.
  - destruct (String.eqb k k0) eqn:E; simpl; rewrite E; congruence.
Qed.

Lemma keys_set k v d :
  Dict.keys (Dict.set k v d)
  = if Dict.mem k d then Dict.keys d else (Dict.keys d ++ [k])%list.
Proof.
  unfold Dict.mem.
  induction d as [|[k0 v0] r IH]; simpl; [reflexivity|].
  destruct (String.eqb k k0) eqn:E; simpl; [reflexivity|].
  rewrite IH. destruct (Dict.get k r); reflexivity.
Qed.

Lemma keys_setdefault k v d :
  Dict.keys (Dict.setdefault k v d)
  = if Dict.mem k d then Dict.keys d else (Dict.keys d ++ [k])%list.
Proof.
  unfold Dict.setdefault. destruct (Dict.mem k d); [reflexivity|].
  unfold Dict.keys. rewrite map_app. reflexivity.
Qed.

Lemma in_keys_set k k' v d :
  In k (Dict.keys (Dict.set k' v d)) <-> k = k' \/ In k (Dict.keys d).
Proof.
  rewrite keys_set. destruct (Dict.mem k' d) eqn:E.
  - apply mem_keys in E. intuition congruence.
  - rewrite in_app_iff. simpl. intuition.
Qed.

Lemma in_keys_setdefault k k' v d :
  In k (Dict.keys (Dict.setdefault k' v d))
  <-> k = k' \/ In k (Dict.keys d).
Proof.
  rewrite keys_setdefault. destruct (Dict.mem k' d) eqn:E.
  - apply mem_keys in E. intuition congruence.
  - rewrite in_app_iff. simpl. intuition.
Qed.

Lemma nodup_keys_set k v d :
  NoDup (Dict.keys d) -> NoDup (Dict.keys (Dict.set k v d)).
Proof.
  intros H. rewrite keys_set. destruct (Dict.mem k d) eqn:E; [assumption|].
  apply NoDup_app; [assumption | constructor; [intros [] | constructor] |].
  intros x Hx [<-|[]]. apply mem_keys in Hx. congruence.
Qed.

Lemma nodup_keys_setdefault k v d :
  NoDup (Dict.keys d) -> NoDup (Dict.keys (Dict.setdefault k v d)).
Proof.
  intros H. rewrite keys_setdefault.
  destruct (Dict.mem k d) eqn:E; [assumption|].
  apply NoDup_app; [assumption | constructor; [intros [] | constructor] |].
  intros x Hx [<-|[]]. apply mem_keys in Hx. congruence.
Qed.

Lemma get_in k v d : Dict.get k d = Some v -> In (k, v) d.
Proof.
  induction d as [|[k0 v0] r IH]; simpl; [discriminate|].
  destruct (String.eqb_spec k k0).
  - intros [= ->]. subst. auto.
  - auto.
Qed.

Lemma forall_set (P : string * V -> Prop) k v d :
  P (k, v) -> Forall P d -> Forall P (Dict.set k v d).
Proof.
  intros Hv. induction 1 as [|[k0 v0] r H0 Hr IH]; simpl.
  - auto.
  - destruct (String.eqb_spec k k0); subst; auto.
Qed.

Lemma forall_setdefault (P : string * V -> Prop) k v d :
  P (k, v) -> Forall P d -> Forall P (Dict.setdefault k v d).
Proof.
  intros Hv Hd. unfold Dict.setdefault. destruct (Dict.mem k d); auto.
  apply Forall_app. auto.
Qed.

End Facts.
End DictFacts.


(* ================================================================== *)
(** * Facts about the heuristic scorer *)
(* ================================================================== *)

Module MockFacts.
Import DictFacts.

Lemma requested_In c cs : requested c cs = true <-> In c cs.
Proof.
  unfold requested. rewrite existsb_exists. split.
  - intros (x & Hx & E). apply String.eqb_eq in E. congruence.
  - intros H. exists c. split; [assumption | apply String.eqb_refl].
Qed.

Lemma clamp_range s : 1 <= clamp s <= 10.
Proof. unfold clamp. lia. Qed.

Lemma clarity_in_range k sg : in_range (k, clarity sg).
Proof. eexists _, _. split; [reflexivity | apply clamp_range]. Qed.

Lemma credibility_in_range k sg : in_range (k, credibility sg).
Proof. eexists _, _. split; [reflexivity | apply clamp_range]. Qed.

Lemma cta_in_range k sg : in_range (k, cta sg).
Proof. eexists _, _. split; [reflexivity | apply clamp_range]. Qed.

Lemma default_in_range k : in_range (k, entry 5 "OK").
Proof. eexists _, _. split; [reflexivity | lia]. Qed.

Lemma fill_scored v cs :
  (forall k, in_range (k, v)) ->
  forall d, scored d ->
            scored (fold_left (fun d c => Dict.setdefault c v d) cs d).
Proof.
  intros Hv. induction cs as [|c cs IH]; intros d Hd; simpl; [assumption|].
  apply IH. apply forall_setdefault; [apply Hv | assumption].
Qed.

Lemma fill_keys (v : pyval) cs :
  forall d k,
    In k (Dict.keys (fold_left (fun d c => Dict.setdefault c v d) cs d))
    <-> In k cs \/ In k (Dict.keys d).
Proof.
  induction cs as [|c cs IH]; intros d k; simpl; [tauto|].
  rewrite IH, in_keys_setdefault. intuition.
Qed.

Lemma fill_nodup (v : pyval) cs :
  forall d, NoDup (Dict.keys d) ->
            NoDup (Dict.keys (fold_left (fun d c => Dict.setdefault c v d)
                                cs d)).
Proof.
  induction cs as [|c cs IH]; intros d Hd; simpl; [assumption|].
  apply IH, nodup_keys_setdefault, Hd.
Qed.

Lemma fill_get (v : pyval) cs :
  forall d k,
    Dict.get k (fold_left (fun d c => Dict.setdefault c v d) cs d)
    = match Dict.get k d with
      | Some x => Some x
      | None => if requested k cs then Some v else None
      end.
Proof.
  induction cs as [|c cs IH]; intros d k; simpl.
  - destruct (Dict.get k d); reflexivity.
  - rewrite IH, get_setdefault.
    destruct (Dict.get k d); [reflexivity|].
    destruct (String.eqb k c); simpl; reflexivity.
Qed.

Lemma mock_scores_unfold sg cs :
  mock_scores sg cs
  = fold_left (fun d c => Dict.setdefault c (entry 5 "OK") d) cs
      (named_scores sg cs).
Proof. reflexivity. Qed.

Lemma named_scored sg cs : scored (named_scores sg cs).
Proof.
  unfold named_scores, scored.
  destruct (requested "clarity" cs), (requested "credibility" cs),
    (requested "cta" cs); simpl;
    repeat constructor;
    first [apply clarity_in_range | apply credibility_in_range
          | apply cta_in_range].
Qed.

Lemma named_keys sg cs k :
  In k (Dict.keys (named_scores sg cs)) -> In k cs.
Proof.
  unfold named_scores.
  destruct (requested "clarity" cs) eqn:E1,
    (requested "credibility" cs) eqn:E2, (requested "cta" cs) eqn:E3;
    simpl; rewrite ?requested_In in *; intuition (subst; assumption).
Qed.

Lemma named_nodup sg cs : NoDup (Dict.keys (named_scores sg cs)).
Proof.
  unfold named_scores.
  destruct (requested "clarity" cs), (requested "credibility" cs),
    (requested "cta" cs); simpl;
    repeat (constructor; [simpl; intuition discriminate|]); constructor.
Qed.

Lemma mock_scores_scored sg cs : scored (mock_scores sg cs).
Proof.
  rewrite mock_scores_unfold.
  apply fill_scored; [apply default_in_range | apply named_scored].
Qed.

(** The keys of [scores] are the requested criteria, each once. *)
Lemma mock_scores_keys sg cs k :
  In k (Dict.keys (mock_scores sg cs)) <-> In k cs.
Proof.
  rewrite mock_scores_unfold, fill_keys.
  pose proof (named_keys sg cs k). tauto.
Qed.

Lemma mock_scores_nodup sg cs : NoDup (Dict.keys (mock_scores sg cs)).
Proof. rewrite mock_scores_unfold. apply fill_nodup, named_nodup. Qed.

Lemma mock_scores_nonempty sg cs : cs <> [] -> mock_scores sg cs <> [].
Proof.
  intros Hcs E. destruct cs as [|c cs]; [congruence|].
  assert (H : In c (Dict.keys (mock_scores sg (c :: cs))))
    by (apply mock_scores_keys; left; reflexivity).
  rewrite E in H. destruct H.
Qed.

(** Summing the scores of a dictionary whose entries are in range. *)
Lemma sum_scores_scored d :
  scored d ->
  forall acc,
  exists t,
    foldM (fun acc v => s <- getitem v "score" ;; PyNum.add acc s)
      (Dict.values d) (VInt acc) = inr (VInt (acc + t))
    /\ Z.of_nat (List.length d) <= t <= 10 * Z.of_nat (List.length d).
Proof.
  induction 1 as [|[k v] r (z & fb & Hv & Hz) Hr IH]; intros acc.
  - exists 0. simpl. rewrite Z.add_0_r. split; [reflexivity | lia].
  - simpl in Hv. subst v.
    destruct (IH (acc + z)) as (t & Ht & Hb).
    exists (z + t). split.
    + cbn [Dict.values map snd foldM]. cbn [getitem entry Dict.get].
      simpl String.eqb. cbn [bind ret PyNum.add PyNum.as_num].
      fold (Dict.values r).
      rewrite Ht. f_equal. f_equal. lia.
    + cbn [List.length]. lia.
Qed.

(** [_mock_score] returns whenever at least one criterion is requested;
    its [overall] is a finite float below [2^9]. *)
Lemma mock_score_ok html cs :
  cs <> [] ->
  exists o,
    _mock_score html cs
    = inr [("scores", VDict (mock_scores (extract html) cs));
           ("overall", VFloat o);
           ("notes", VStr "Mock mode: heuristic scoring")]
    /\ PyFloat.small 9 o.
Proof.
  intros Hcs. unfold _mock_score.
  set (scores := mock_scores (extract html) cs).
  assert (Hne : scores <> []) by (apply mock_scores_nonempty; assumption).
  destruct (sum_scores_scored scores (mock_scores_scored _ _) 0)
    as (t & Ht & Hb).
  unfold sum_scores. rewrite Ht. cbn [bind]. rewrite Z.add_0_l.
  assert (Hlen : 0 < Z.of_nat (List.length scores))
    by (destruct scores; [congruence | cbn [List.length]; lia]).
  unfold PyNum.truediv. cbn [PyNum.as_num].
  destruct (Z.eqb_spec (Z.of_nat (List.length scores)) 0) as [E|_]; [lia|].
  assert (Hq : PyFloat.small 6 (PyFloat.quot t (Z.of_nat (List.length scores)))).
  { apply (FloatFacts.quot_small _ _ 4); lia. }
  rewrite (FloatFacts.small_finite _ _ Hq). cbn [bind ret].
  pose proof (FloatFacts.round2_small _ 6 Hq ltac:(lia)) as Hr.
  unfold PyNum.round2. cbn [PyNum.as_num].
  rewrite (FloatFacts.small_finite _ _ Hr), andb_false_r. cbn [bind ret].
  eexists. split; [reflexivity | exact Hr].
Qed.

End MockFacts.


(* ================================================================== *)
(** * Facts about the response normaliser *)
(* ================================================================== *)

Module NormalizeFacts.
Import DictFacts MockFacts.

Lemma fill_missing_all cs :
  forall data sc,
    Dict.get "scores" data = Some (VDict sc) ->
    foldM fill_missing cs data
    = inr (Dict.set "scores" (VDict (filled cs sc)) data).
Proof.
  induction cs as [|c cs IH]; intros data sc Hsc.
  - simpl. unfold ret. f_equal. symmetry. apply set_get. exact Hsc.
  - cbn [foldM]. unfold fill_missing at 1, lookup. rewrite Hsc.
    cbn [bind ret as_dict].
    rewrite (IH _ (Dict.setdefault c (entry 0 "") sc))
      by apply get_set_same.
    rewrite set_set. reflexivity.
Qed.

Lemma fill_missing_not_dict c cs data v :
  Dict.get "scores" data = Some v -> (forall sc, v <> VDict sc) ->
  foldM fill_missing (c :: cs) data = inl AttributeError.
Proof.
  intros Hv Hnd. cbn [foldM]. unfold fill_missing, lookup. rewrite Hv.
  cbn [bind ret]. destruct v; try reflexivity. elim (Hnd d). reflexivity.
Qed.

Lemma get_scores_default (data : pydict) :
  Dict.get "scores" (Dict.setdefault "scores" (VDict []) data)
  = match Dict.get "scores" data with
    | Some v => Some v
    | None => Some (VDict [])
    end.
Proof. rewrite get_setdefault. reflexivity. Qed.

Lemma payload_scores_default data sc0 :
  payload_scores data = Some sc0 ->
  Dict.get "scores" (Dict.setdefault "scores" (VDict []) data)
  = Some (VDict sc0).
Proof.
  unfold payload_scores. rewrite get_scores_default.
  destruct (Dict.get "scores" data) as [[]|]; congruence.
Qed.

(** The normaliser on a payload whose [scores] is an object or absent. *)
Lemma normalize_eq cs data sc0 :
  payload_scores data = Some sc0 ->
  normalize cs (VDict data)
  = let sc := filled cs sc0 in
    let d2 := Dict.set "scores" (VDict sc)
                (Dict.setdefault "scores" (VDict []) data) in
    d3 <- (if overall_unusable data then
             vals <- mapM (fun v => getitem v "score") (Dict.values sc) ;;
             overall <- mean2 vals ;;
             ret (Dict.set "overall" overall d2)
           else ret d2) ;;
    ret (Dict.setdefault "notes" (VStr "") d3).
Proof.
  intros Hsc. unfold normalize. cbn [as_dict bind ret].
  rewrite (fill_missing_all cs _ sc0) by (apply payload_scores_default, Hsc).
  cbn [bind]. cbv zeta.
  set (d2 := Dict.set "scores" _ _).
  assert (Hov : overall_unusable d2 = overall_unusable data).
  { unfold overall_unusable, d2.
    rewrite get_set_other, get_setdefault by discriminate.
    destruct (Dict.get "overall" data); reflexivity. }
  rewrite Hov. destruct (overall_unusable data); [|reflexivity].
  unfold lookup, d2. rewrite get_set_same. reflexivity.
Qed.

(** The normaliser fails on a payload that is not an object, and, for a
    non-empty criteria list, on a [scores] that is not an object. *)
Lemma normalize_inr cs data out :
  normalize cs data = inr out ->
  exists d0, data = VDict d0 /\ (cs <> [] -> payload_scores d0 <> None).
Proof.
  intros H. destruct data as [| | | | | |d0]; try discriminate.
  exists d0. split; [reflexivity|]. intros Hcs Hp.
  destruct cs as [|c cs]; [congruence|].
  unfold payload_scores in Hp.
  destruct (Dict.get "scores" d0) as [v|] eqn:E; [|discriminate].
  unfold normalize in H. cbn [as_dict bind ret] in H.
  rewrite (fill_missing_not_dict c cs _ v) in H.
  - discriminate.
  - rewrite get_scores_default, E. reflexivity.
  - intros sc ->. discriminate.
Qed.

Lemma normalize_spec cs d0 sc0 out :
  payload_scores d0 = Some sc0 ->
  normalize cs (VDict d0) = inr out ->
  Dict.get "scores" out = Some (VDict (filled cs sc0)) /\
  (if overall_unusable d0 then
     exists vals o,
       mapM (fun v => getitem v "score") (Dict.values (filled cs sc0))
       = inr vals /\
       mean2 vals = inr o /\ Dict.get "overall" out = Some o
   else Dict.get "overall" out = Dict.get "overall" d0) /\
  Dict.get "notes" out
  = Some (match Dict.get "notes" d0 with Some v => v | None => VStr "" end).
Proof.
  intros Hsc H. rewrite (normalize_eq cs d0 sc0 Hsc) in H. cbv zeta in H.
  set (d2 := Dict.set "scores" _ _) in H.
  assert (H2s : Dict.get "scores" d2 = Some (VDict (filled cs sc0)))
    by apply get_set_same.
  assert (H2o : Dict.get "overall" d2 = Dict.get "overall" d0).
  { unfold d2. rewrite get_set_other, get_setdefault by discriminate.
    destruct (Dict.get "overall" d0); reflexivity. }
  assert (H2n : Dict.get "notes" d2 = Dict.get "notes" d0).
  { unfold d2. rewrite get_set_other, get_setdefault by discriminate.
    destruct (Dict.get "notes" d0); reflexivity. }
  clearbody d2.
  destruct (overall_unusable d0) eqn:Hov.
  - destruct (mapM _ _) as [e|vals]; [discriminate|]. cbn [bind] in H.
    destruct (mean2 vals) as [e|o] eqn:Hm; [discriminate|].
    cbn [bind ret] in H.
    injection H as <-. rewrite !get_setdefault.
    rewrite (get_set_other "scores"), (get_set_other "notes"),
      get_set_same, H2s, H2n by discriminate.
    split; [reflexivity|]. split.
    + exists vals, o. auto.
    + destruct (Dict.get "notes" d0); reflexivity.
  - cbn [bind ret] in H. injection H as <-. rewrite !get_setdefault.
    rewrite H2s, H2o, H2n. split; [reflexivity|]. split.
    + unfold overall_unusable in Hov.
      destruct (Dict.get "overall" d0); [reflexivity | discriminate].
    + destruct (Dict.get "notes" d0); reflexivity.
Qed.

Lemma get_filled cs sc c :
  Dict.get c (filled cs sc)
  = match Dict.get c sc with
    | Some e => Some e
    | None => if requested c cs then Some (entry 0 "") else None
    end.
Proof. apply fill_get. Qed.

Lemma filled_keys cs sc c : In c cs -> In c (Dict.keys (filled cs sc)).
Proof. intros H. apply fill_keys. left. exact H. Qed.

End NormalizeFacts.


(* ================================================================== *)
(** * Facts about the orchestrator and the comparator *)
(* ================================================================== *)

Module EngineFacts.
Import DictFacts MockFacts NormalizeFacts.

Lemma list_or_nonempty (c : option (list string)) :
  list_or c DEFAULT_CRITERIA <> [].
Proof. destruct c as [[|]|]; discriminate. Qed.

Lemma list_or_idem (c : option (list string)) :
  list_or (Some (list_or c DEFAULT_CRITERIA)) DEFAULT_CRITERIA
  = list_or c DEFAULT_CRITERIA.
Proof. destruct c as [[|]|]; reflexivity. Qed.

Lemma mock_answer html cs :
  cs <> [] ->
  exists r, _mock_score html cs = inr r
            /\ heuristic_answer html cs "Mock mode: heuristic scoring" r.
Proof.
  intros Hcs. destruct (mock_score_ok html cs Hcs) as (o & E & Ho).
  eexists. split; [exact E|]. exists o. auto.
Qed.

Lemma fallback_answer html cs e :
  cs <> [] ->
  exists r, fallback html cs e = inr r
            /\ heuristic_answer html cs
                 ("Mock fallback due to error: " ++ class_name e) r.
Proof.
  intros Hcs. destruct (mock_score_ok html cs Hcs) as (o & E & Ho).
  unfold fallback. rewrite E. cbn [bind ret].
  eexists. split; [reflexivity|]. exists o. split; [reflexivity | exact Ho].
Qed.

Lemma heuristic_answer_answers html cs notes r :
  heuristic_answer html cs notes r -> answers cs r.
Proof.
  intros (o & -> & _). eexists _, _. repeat split.
  intros c Hc. apply mock_scores_keys. exact Hc.
Qed.

Lemma normalize_answers cs data out :
  cs <> [] -> normalize cs data = inr out -> answers cs out.
Proof.
  intros Hcs H. destruct (normalize_inr _ _ _ H) as (d0 & -> & Hp).
  destruct (payload_scores d0) as [sc0|] eqn:Hsc; [|elim (Hp Hcs eq_refl)].
  destruct (normalize_spec _ _ _ _ Hsc H) as (Hs & Ho & _).
  assert (exists o, Dict.get "overall" out = Some o) as [o Hov].
  { destruct (overall_unusable d0) eqn:E.
    - destruct Ho as (_ & o & _ & _ & Ho). eauto.
    - rewrite Ho. unfold overall_unusable in E.
      destruct (Dict.get "overall" d0); [eauto | discriminate]. }
  exists (filled cs sc0), o. repeat split; try assumption.
  intros c Hc. apply filled_keys, Hc.
Qed.

(** ** The delta loop *)

Lemma delta_step_value before after delta c :
  delta_step before after delta c
  = v <- delta_value before after c ;; ret (Dict.set c v delta).
Proof.
  unfold delta_step, delta_value.
  destruct (side before c); [reflexivity|]. cbn [bind].
  destruct (side after c); [reflexivity|]. cbn [bind].
  destruct (PyNum.sub _ _); reflexivity.
Qed.

(** When the loop finishes, the entry of each key it visited is the
    value computed for that key, and the other entries are untouched. *)
Lemma delta_loop before after l :
  forall d0 d,
    foldM (delta_step before after) l d0 = inr d ->
    (forall c, In c l ->
               exists v, delta_value before after c = inr v
                         /\ Dict.get c d = Some v) /\
    (forall c, ~ In c l -> Dict.get c d = Dict.get c d0) /\
    (forall c, In c (Dict.keys d) <-> In c l \/ In c (Dict.keys d0)).
Proof.
  induction l as [|c0 l IH]; intros d0 d H.
  - injection H as <-. simpl. intuition.
  - cbn [foldM] in H. rewrite delta_step_value in H.
    destruct (delta_value before after c0) as [e|v0] eqn:E0;
      [discriminate|].
    cbn [bind ret] in H. destruct (IH _ _ H) as (Hin & Hout & Hkeys).
    split; [|split].
    + intros c Hc. destruct (in_dec string_dec c l) as [Hl|Hl].
      * apply Hin, Hl.
      * destruct Hc as [->|Hc]; [|contradiction].
        exists v0. split; [assumption|].
        rewrite (Hout _ Hl). apply get_set_same.
    + intros c Hc. simpl in Hc.
      rewrite Hout by tauto. apply get_set_other. intuition.
    + intros c. rewrite Hkeys, in_keys_set. simpl. intuition.
Qed.

Lemma delta_loop_returns before after l :
  (forall c, In c l -> exists v, delta_value before after c = inr v) ->
  forall d0, exists d, foldM (delta_step before after) l d0 = inr d.
Proof.
  induction l as [|c0 l IH]; intros Hl d0.
  - exists d0. reflexivity.
  - cbn [foldM]. rewrite delta_step_value.
    destruct (Hl c0 (or_introl eq_refl)) as (v & ->). cbn [bind ret].
    apply IH. intros c Hc. apply Hl. right. exact Hc.
Qed.

(** ** Reading a heuristic answer *)

Lemma side_heuristic html cs notes r c :
  heuristic_answer html cs notes r ->
  (In c cs -> exists z, side r c = inr (VInt z) /\ 1 <= z <= 10) /\
  (~ In c cs ->
   exists o, side r c = inr (VFloat o) /\ PyFloat.small 9 o
             /\ Dict.get "overall" r = Some (VFloat o)).
Proof.
  intros (o & -> & Ho). unfold side, lookup.
  cbn [Dict.get]. simpl String.eqb. cbn [bind ret as_dict].
  set (sc := mock_scores (extract html) cs).
  pose proof (mock_scores_keys (extract html) cs c) as Hk. fold sc in Hk.
  split; intros Hc.
  - assert (Hm : Dict.mem c sc = true) by (apply mem_keys, Hk, Hc).
    rewrite Hm. unfold Dict.mem in Hm.
    destruct (Dict.get c sc) as [e|] eqn:E; [|discriminate].
    apply get_in in E.
    pose proof (mock_scores_scored (extract html) cs) as Hs. fold sc in Hs.
    unfold scored in Hs. rewrite Forall_forall in Hs.
    destruct (Hs _ E) as (z & fb & He & Hz). simpl in He. subst e.
    exists z. split; [reflexivity | exact Hz].
  - assert (Hm : Dict.mem c sc = false).
    { destruct (Dict.mem c sc) eqn:E; [|reflexivity].
      apply mem_keys, Hk in E. contradiction. }
    rewrite Hm. exists o. auto.
Qed.

(** The delta of two heuristic answers for the same criteria: an [int]
    difference for a requested key, the rounded difference of the two
    [overall] floats for any other key. *)
Lemma delta_value_heuristic hb ha cs nb na rb ra c :
  heuristic_answer hb cs nb rb -> heuristic_answer ha cs na ra ->
  (In c cs ->
   exists zb za,
     side rb c = inr (VInt zb) /\ side ra c = inr (VInt za) /\
     delta_value rb ra c = inr (VInt (za - zb))) /\
  (~ In c cs ->
   exists ob oa,
     Dict.get "overall" rb = Some (VFloat ob) /\
     Dict.get "overall" ra = Some (VFloat oa) /\
     PyFloat.small 9 ob /\ PyFloat.small 9 oa /\
     delta_value rb ra c
     = inr (VFloat (PyFloat.round2 (PyFloat.sub oa ob)))).
Proof.
  intros Hb Ha.
  destruct (side_heuristic _ _ _ _ c Hb) as [Hb1 Hb2].
  destruct (side_heuristic _ _ _ _ c Ha) as [Ha1 Ha2].
  split; intros Hc.
  - destruct (Hb1 Hc) as (zb & Eb & _). destruct (Ha1 Hc) as (za & Ea & _).
    exists zb, za. unfold delta_value. rewrite Eb, Ea. auto.
  - destruct (Hb2 Hc) as (ob & Eb & Sb & Gb).
    destruct (Ha2 Hc) as (oa & Ea & Sa & Ga).
    exists ob, oa. unfold delta_value. rewrite Eb, Ea.
    cbn [bind ret PyNum.sub PyNum.as_num PyNum.coerce].
    pose proof (FloatFacts.sub_small oa ob 9 Sa Sb ltac:(lia)) as Hd.
    pose proof (FloatFacts.round2_small _ _ Hd ltac:(lia)) as Hr.
    unfold PyNum.round2. cbn [PyNum.as_num].
    rewrite (FloatFacts.small_finite _ _ Hr), andb_false_r.
    auto 10.
Qed.

Lemma delta_value_heuristic_returns hb ha cs nb na rb ra c :
  heuristic_answer hb cs nb rb -> heuristic_answer ha cs na ra ->
  exists v, delta_value rb ra c = inr v.
Proof.
  intros Hb Ha.
  destruct (delta_value_heuristic _ _ _ _ _ _ _ c Hb Ha) as [H1 H2].
  destruct (in_dec string_dec c cs) as [Hc|Hc].
  - destruct (H1 Hc) as (? & ? & _ & _ & E). eauto.
  - destruct (H2 Hc) as (? & ? & _ & _ & _ & _ & E). eauto.
Qed.

Lemma delta_value_inv before after c v :
  delta_value before after c = inr v ->
  exists b a d,
    side before c = inr b /\ side after c = inr a /\
    PyNum.sub a b = inr d /\ PyNum.round2 d = inr v.
Proof.
  unfold delta_value. intros H.
  destruct (side before c) as [e|b]; [discriminate|]. cbn [bind] in H.
  destruct (side after c) as [e|a]; [discriminate|]. cbn [bind] in H.
  destruct (PyNum.sub a b) as [e|d] eqn:Ed; [discriminate|].
  cbn [bind] in H. exists b, a, d. auto.
Qed.

(** For a key of [scores] the loop reads the score of that entry. *)
Lemma side_in_scores r sc c :
  Dict.get "scores" r = Some (VDict sc) -> In c (Dict.keys sc) ->
  side r c = score_at r c.
Proof.
  intros Hs Hc. unfold side, score_at, lookup. rewrite Hs.
  cbn [bind ret as_dict]. apply mem_keys in Hc. rewrite Hc. reflexivity.
Qed.

(** For any other key it reads [overall]. *)
Lemma side_not_in_scores r sc c :
  Dict.get "scores" r = Some (VDict sc) -> ~ In c (Dict.keys sc) ->
  side r c = lookup r "overall".
Proof.
  intros Hs Hc. unfold side, lookup at 1. rewrite Hs.
  cbn [bind ret as_dict].
  destruct (Dict.mem c sc) eqn:E; [|reflexivity].
  apply mem_keys in E. contradiction.
Qed.

Lemma side_answers cs r c :
  answers cs r -> In c cs -> side r c = score_at r c.
Proof.
  intros (sc & o & Hs & _ & Hk) Hc.
  apply (side_in_scores r sc); auto.
Qed.

Lemma named_get_other sg cs k :
  k <> "clarity" -> k <> "credibility" -> k <> "cta" ->
  Dict.get k (named_scores sg cs) = None.
Proof.
  intros H1 H2 H3. apply String.eqb_neq in H1, H2, H3.
  unfold named_scores.
  destruct (requested "clarity" cs), (requested "credibility" cs),
    (requested "cta" cs); simpl; rewrite ?H1, ?H2, ?H3; reflexivity.
Qed.

(** A requested criterion the heuristic does not know scores 5. *)
Lemma score_at_unknown html cs notes r k :
  heuristic_answer html cs notes r -> In k cs ->
  k <> "clarity" -> k <> "credibility" -> k <> "cta" ->
  score_at r k = inr (VInt 5).
Proof.
  intros (o & -> & _) Hk H1 H2 H3. unfold score_at, lookup.
  cbn [Dict.get]. simpl String.eqb. cbn [bind ret as_dict].
  rewrite mock_scores_unfold, fill_get, named_get_other by assumption.
  apply requested_In in Hk. rewrite Hk. reflexivity.
Qed.

Section Engine.

Variable USE_MOCK : bool.
Variable OPENAI_API_KEY : option string.
Variable client : llm.

Abbreviation score_page := (llm_score_page USE_MOCK OPENAI_API_KEY client).
Abbreviation attempt := (llm_attempt OPENAI_API_KEY client).
Abbreviation mode := (heuristic_mode USE_MOCK OPENAI_API_KEY).

Lemma score_page_heuristic html url c model n :
  mode = true ->
  score_page html url c model n
  = (_mock_score html (list_or c DEFAULT_CRITERIA), n).
Proof. intros H. unfold llm_score_page. rewrite H. reflexivity. Qed.

Lemma score_page_llm html url c model n data :
  mode = false ->
  attempt html url (list_or c DEFAULT_CRITERIA) model n = inr data ->
  score_page html url c model n = (inr data, S n).
Proof. intros H E. unfold llm_score_page. rewrite H, E. reflexivity. Qed.

Lemma score_page_fallback html url c model n e :
  mode = false ->
  attempt html url (list_or c DEFAULT_CRITERIA) model n = inl e ->
  score_page html url c model n
  = (fallback html (list_or c DEFAULT_CRITERIA) e, S n).
Proof. intros H E. unfold llm_score_page. rewrite H, E. reflexivity. Qed.

Lemma attempt_answers html url cs model n data :
  cs <> [] -> attempt html url cs model n = inr data -> answers cs data.
Proof.
  intros Hcs. unfold llm_attempt.
  destruct (request _ _ _ _ _ _ _); [discriminate|].
  apply normalize_answers, Hcs.
Qed.

(** [llm_score_page] never raises, and its answer covers the requested
    criteria. *)
Lemma score_page_returns html url c model n :
  exists r n',
    score_page html url c model n = (inr r, n')
    /\ answers (list_or c DEFAULT_CRITERIA) r.
Proof.
  pose proof (list_or_nonempty c) as Hcs.
  destruct mode eqn:Hm.
  - rewrite score_page_heuristic by assumption.
    destruct (mock_answer html _ Hcs) as (r & -> & Hr).
    eauto using heuristic_answer_answers.
  - destruct (attempt html url (list_or c DEFAULT_CRITERIA) model n)
      as [e|data] eqn:E.
    + rewrite (score_page_fallback _ _ _ _ _ e) by assumption.
      destruct (fallback_answer html _ e Hcs) as (r & -> & Hr).
      eauto using heuristic_answer_answers.
    + rewrite (score_page_llm _ _ _ _ _ data) by assumption.
      eauto using attempt_answers.
Qed.

Abbreviation ask := (request OPENAI_API_KEY client).

(** The three ways [llm_score_page] ends: heuristic mode, fallback after
    a failed attempt, normalised payload. *)
Lemma score_page_cases html url c model n :
  let cs := list_or c DEFAULT_CRITERIA in
  (mode = true /\
   exists r, heuristic_answer html cs "Mock mode: heuristic scoring" r /\
             score_page html url c model n = (inr r, n)) \/
  (mode = false /\
   exists e r,
     attempt html url cs model n = inl e /\
     heuristic_answer html cs
       ("Mock fallback due to error: " ++ class_name e) r /\
     score_page html url c model n = (inr r, S n)) \/
  (mode = false /\
   exists d0 sc0 r,
     ask html url cs model n = Parsed (VDict d0) /\
     payload_scores d0 = Some sc0 /\
     normalize cs (VDict d0) = inr r /\
     score_page html url c model n = (inr r, S n)).
Proof.
  intros cs. pose proof (list_or_nonempty c) as Hcs. fold cs in Hcs.
  destruct mode eqn:Hm.
  - left. split; [reflexivity|].
    rewrite score_page_heuristic by assumption. fold cs.
    destruct (mock_answer html cs Hcs) as (r & -> & Hr). eauto.
  - right. destruct (attempt html url cs model n) as [e|data] eqn:E.
    + left. split; [reflexivity|].
      rewrite (score_page_fallback _ _ _ _ _ e) by assumption. fold cs.
      destruct (fallback_answer html cs e Hcs) as (r & -> & Hr).
      exists e, r. auto.
    + right. split; [reflexivity|].
      rewrite (score_page_llm _ _ _ _ _ data) by assumption.
      unfold llm_attempt in E.
      destruct (ask html url cs model n) as [e|payload] eqn:Er;
        [discriminate|].
      destruct (normalize_inr _ _ _ E) as (d0 & -> & Hp).
      destruct (payload_scores d0) as [sc0|] eqn:Hsc;
        [|elim (Hp Hcs eq_refl)].
      exists d0, sc0, data. auto.
Qed.

Lemma score_page_answers html url c model n r n' :
  score_page html url c model n = (inr r, n') ->
  answers (list_or c DEFAULT_CRITERIA) r.
Proof.
  intros H. destruct (score_page_returns html url c model n)
    as (r0 & n0 & E & Ha).
  rewrite E in H. injection H as <- <-. exact Ha.
Qed.

Abbreviation compare := (compare_pages USE_MOCK OPENAI_API_KEY client).

(** What a returning [compare_pages] has done. *)
Lemma compare_inv req n r n' :
  compare req n = (inr r, n') ->
  let cs := list_or (criteria req) DEFAULT_CRITERIA in
  exists before after delta n1,
    score_page (before_html req) (url req) (Some cs) "gpt-5-mini" n
    = (inr before, n1) /\
    score_page (after_html req) (url req) (Some cs) "gpt-5-mini" n1
    = (inr after, n') /\
    foldM (delta_step before after) (cs ++ ["overall"]) [] = inr delta /\
    r = [("before", VDict before); ("after", VDict after);
         ("delta", VDict delta)].
Proof.
  intros H cs. unfold compare_pages, io_bind, io_lift in H. fold cs in H.
  destruct (score_page (before_html req) _ _ _ n) as [[e|before] n1] eqn:E1;
    [discriminate|].
  destruct (score_page (after_html req) _ _ _ n1) as [[e|after] n2] eqn:E2;
    [discriminate|].
  destruct (foldM _ _ _) as [e|delta] eqn:E3; [discriminate|].
  cbn [bind ret] in H. injection H as <- <-.
  exists before, after, delta, n1. auto.
Qed.

(** In heuristic mode [compare_pages] returns, without sending any
    request. *)
Lemma compare_heuristic req n :
  mode = true ->
  let cs := list_or (criteria req) DEFAULT_CRITERIA in
  exists before after delta,
    _mock_score (before_html req) cs = inr before /\
    _mock_score (after_html req) cs = inr after /\
    heuristic_answer (before_html req) cs "Mock mode: heuristic scoring"
      before /\
    heuristic_answer (after_html req) cs "Mock mode: heuristic scoring"
      after /\
    foldM (delta_step before after) (cs ++ ["overall"]) [] = inr delta /\
    compare req n
    = (inr [("before", VDict before); ("after", VDict after);
            ("delta", VDict delta)], n).
Proof.
  intros Hm cs.
  assert (Hcs : cs <> []) by apply list_or_nonempty.
  destruct (mock_answer (before_html req) cs Hcs) as (rb & Eb & Hb).
  destruct (mock_answer (after_html req) cs Hcs) as (ra & Ea & Ha).
  destruct (delta_loop_returns rb ra (cs ++ ["overall"])
              (fun c _ => delta_value_heuristic_returns _ _ _ _ _ _ _ c Hb Ha)
              []) as (delta & Ed).
  exists rb, ra, delta. repeat split; try assumption.
  unfold compare_pages, io_bind, io_lift. fold cs.
  rewrite !score_page_heuristic by assumption.
  pose proof (list_or_idem (criteria req)) as Hi. fold cs in Hi.
  rewrite !Hi, Eb, Ea, Ed. reflexivity.
Qed.

(** A returning [compare_pages], with the content of [delta]. *)
Lemma compare_delta req n r n' :
  compare req n = (inr r, n') ->
  let cs := list_or (criteria req) DEFAULT_CRITERIA in
  exists before after delta n1,
    score_page (before_html req) (url req) (Some cs) "gpt-5-mini" n
    = (inr before, n1) /\
    score_page (after_html req) (url req) (Some cs) "gpt-5-mini" n1
    = (inr after, n') /\
    r = [("before", VDict before); ("after", VDict after);
         ("delta", VDict delta)] /\
    answers cs before /\ answers cs after /\
    (forall c, In c (cs ++ ["overall"]) ->
               exists v, delta_value before after c = inr v
                         /\ Dict.get c delta = Some v) /\
    (forall c, In c (Dict.keys delta) <-> In c (cs ++ ["overall"])).
Proof.
  intros H cs.
  destruct (compare_inv _ _ _ _ H) as (rb & ra & delta & n1 & Eb & Ea & Ed & ->).
  fold cs in Eb, Ea, Ed.
  destruct (delta_loop _ _ _ _ _ Ed) as (Hin & _ & Hk).
  exists rb, ra, delta, n1. repeat split; try assumption.
  - pose proof (score_page_answers _ _ _ _ _ _ _ Eb) as Hb.
    unfold cs in Hb. rewrite list_or_idem in Hb. exact Hb.
  - pose proof (score_page_answers _ _ _ _ _ _ _ Ea) as Ha.
    unfold cs in Ha. rewrite list_or_idem in Ha. exact Ha.
  - intros Hc. apply Hk in Hc. simpl in Hc. tauto.
  - intros Hc. apply Hk. tauto.
Qed.

End Engine.

End EngineFacts.


(* ================================================================== *)
(** * Facts about the text signals *)
(* ================================================================== *)

Module TextFacts.
Import Text.

Lemma sub_tags_no_tag s : has_tag s = false -> sub_tags s = s.
Proof.
  unfold sub_tags. induction s as [|c t IH]; simpl; [reflexivity|].
  intros H. apply orb_false_elim in H as [H1 H2].
  destruct (Ascii.eqb c "<"); simpl in H1.
  - destruct (tag_tail t); [discriminate|]. rewrite IH by assumption.
    reflexivity.
  - rewrite IH by assumption. reflexivity.
Qed.

Lemma is_space_lower c : is_space (lower_char c) = is_space c.
Proof. destruct c as [[] [] [] [] [] [] [] []]; reflexivity. Qed.

Lemma lower_char_gt c : lower_char c = ">"%char -> c = ">"%char.
Proof.
  destruct c as [[] [] [] [] [] [] [] []]; try reflexivity;
    vm_compute; discriminate.
Qed.

Lemma lower_char_lt c : lower_char c = "<"%char -> c = "<"%char.
Proof.
  destruct c as [[] [] [] [] [] [] [] []]; try reflexivity;
    vm_compute; discriminate.
Qed.

Lemma push_lower w ws :
  push (lower w) (map lower ws) = map lower (push w ws).
Proof. destruct w; reflexivity. Qed.

Lemma split_aux_lower s :
  split_aux (lower s)
  = (lower (fst (split_aux s)), map lower (snd (split_aux s))).
Proof.
  induction s as [|c t IH]; simpl; [reflexivity|].
  rewrite IH, is_space_lower. destruct (split_aux t) as [w ws]. simpl.
  destruct (is_space c); simpl; [rewrite push_lower|]; reflexivity.
Qed.

(** Lowering the case does not move the token boundaries. *)
Lemma split_lower s : split (lower s) = map lower (split s).
Proof.
  unfold split. rewrite split_aux_lower.
  destruct (split_aux s) as [w ws]. simpl. apply push_lower.
Qed.

Lemma prefix_ci_find_gt name :
  forall s r k,
    prefix_ci name s = Some r -> find_gt (lower name) = None ->
    find_gt r = Some k -> find_gt s = Some (String.length name + k)%nat.
Proof.
  induction name as [|a name IH]; intros s r k Hp Hn Hr.
  - simpl in Hp. injection Hp as ->. exact Hr.
  - destruct s as [|b s]; [discriminate|]. simpl in Hp, Hn |- *.
    destruct (Ascii.eqb_spec (lower_char a) (lower_char b)) as [E|];
      [|discriminate].
    destruct (Ascii.eqb_spec (lower_char a) ">") as [Ea|Ea];
      [discriminate|].
    destruct (find_gt (lower name)) eqn:En; [discriminate|].
    destruct (Ascii.eqb_spec b ">") as [->|Hb].
    + elim Ea. rewrite E. reflexivity.
    + rewrite (IH _ _ _ Hp eq_refl Hr). reflexivity.
Qed.

(** An element whose opening tag is [<name...>] contains a tag span. *)
Lemma search_element_has_tag a name close s :
  find_gt (lower (String a name)) = None ->
  search_element (String "<" (String a name)) close s = true ->
  has_tag s = true.
Proof.
  intros Hn. induction s as [|b s IH]; simpl; [discriminate|].
  intros H. apply orb_true_iff in H as [H|H].
  - apply orb_true_iff. left. unfold element_here in H.
    change (prefix_ci (String "<" (String a name)) (String b s))
      with (if Ascii.eqb (lower_char "<") (lower_char b)
            then prefix_ci (String a name) s else None) in H.
    destruct (Ascii.eqb_spec (lower_char "<") (lower_char b)) as [E|];
      [|discriminate H].
    symmetry in E. apply lower_char_lt in E. subst b.
    destruct (prefix_ci (String a name) s) as [r|] eqn:Hp;
      [|discriminate H].
    destruct (find_gt r) as [k|] eqn:Hr; [|discriminate H].
    unfold tag_tail.
    rewrite (prefix_ci_find_gt _ _ _ _ Hp Hn Hr). reflexivity.
  - apply orb_true_iff. right. apply IH, H.
Qed.

Lemma no_tag_no_element a name close s :
  find_gt (lower (String a name)) = None ->
  has_tag s = false ->
  search_element (String "<" (String a name)) close s = false.
Proof.
  intros Hn Hs.
  destruct (search_element _ close s) eqn:E; [|reflexivity].
  rewrite (search_element_has_tag _ _ _ _ Hn E) in Hs. discriminate.
Qed.

End TextFacts.


(* ================================================================== *)
(** * The properties of the specification *)
(* ================================================================== *)

Import Text DictFacts MockFacts NormalizeFacts EngineFacts TextFacts.
Local Open Scope string_scope.

(** ** Orchestrator *)

(** C1. When the [try] block of [llm_score_page] raises [e], whether in
    the client or while the payload is normalised, the call returns the
    heuristic result for the same page and criteria, with [notes]
    replaced by the fallback message naming the class of [e]; one
    request has been sent and nothing is raised. *)
Theorem llm_error_falls_back
    USE_MOCK KEY client html url c model n e :
  heuristic_mode USE_MOCK KEY = false ->
  llm_attempt KEY client html url (list_or c DEFAULT_CRITERIA) model n
  = inl e ->
  exists scores overall,
    _mock_score html (list_or c DEFAULT_CRITERIA)
    = inr [("scores", scores); ("overall", overall);
           ("notes", VStr "Mock mode: heuristic scoring")] /\
    llm_score_page USE_MOCK KEY client html url c model n
    = (inr [("scores", scores); ("overall", overall);
            ("notes",
             VStr ("Mock fallback due to error: " ++ class_name e))],
       S n).
Proof.
  intros Hm He.
  destruct (mock_score_ok html _ (list_or_nonempty c)) as (o & E & _).
  rewrite (score_page_fallback _ _ _ _ _ _ _ _ e Hm He).
  unfold fallback. rewrite E. cbn [bind ret].
  eexists _, _. split; reflexivity.
Qed.

Lemma llm_error_falls_back_witness :
  heuristic_mode false (Some "sk-test") = false /\
  llm_attempt (Some "sk-test") (fails "TimeoutError") "<h1>Hi</h1>" None
    (list_or None DEFAULT_CRITERIA) "gpt-5-mini" 0%nat = inl (Exn "TimeoutError")
  /\
  exists scores overall,
    _mock_score "<h1>Hi</h1>" (list_or None DEFAULT_CRITERIA)
    = inr [("scores", scores); ("overall", overall);
           ("notes", VStr "Mock mode: heuristic scoring")] /\
    llm_score_page false (Some "sk-test") (fails "TimeoutError")
      "<h1>Hi</h1>" None None "gpt-5-mini" 0%nat
    = (inr [("scores", scores); ("overall", overall);
            ("notes", VStr "Mock fallback due to error: TimeoutError")],
       1%nat).
Proof.
  split; [reflexivity|]. split; [reflexivity|].
  apply (llm_error_falls_back false (Some "sk-test") (fails "TimeoutError")
           "<h1>Hi</h1>" None None "gpt-5-mini" 0%nat (Exn "TimeoutError"));
    reflexivity.
Defined.

(** ** Result invariants *)

Lemma scored_scores_in_range sc k e :
  scored sc -> Dict.get k sc = Some e ->
  exists z, getitem e "score" = inr (VInt z) /\ 1 <= z <= 10.
Proof.
  intros Hs Hg. apply get_in in Hg. unfold scored in Hs.
  rewrite Forall_forall in Hs. destruct (Hs _ Hg) as (z & fb & He & Hz).
  simpl in He. subst e. exists z. split; [reflexivity | exact Hz].
Qed.

(** C2, as stated, fails on the normalised LLM path: an entry of the
    payload for a criterion that was not requested stays in [scores]. *)
Lemma payload_keys_survive :
  exists r n',
    llm_score_page false (Some "sk-test")
      (replies (VDict [("scores", VDict [("tone", entry 7 "Warm.")])]))
      "<h1>Hi</h1>" None (Some ["clarity"]) "gpt-5-mini" 0%nat
    = (inr r, n') /\
    ~ exactly_requested (list_or (Some ["clarity"]) DEFAULT_CRITERIA) r.
Proof.
  eexists _, _. split; [vm_compute; reflexivity|].
  intros (sc & Hsc & Hk). vm_compute in Hsc. injection Hsc as <-.
  destruct (Hk "tone") as [Hin _].
  destruct (Hin (or_introl eq_refl)) as [E|[]]. discriminate E.
Qed.

(** C2, amended.  [llm_score_page] always returns, and [scores] has an
    entry for every requested criterion.  In heuristic mode and after a
    fallback the keys of [scores] are exactly the requested criteria,
    each once.  When a payload was normalised, the keys are those of the
    payload's [scores] together with the requested criteria. *)
Theorem scores_cover_requested USE_MOCK KEY client html url c model n :
  let cs := list_or c DEFAULT_CRITERIA in
  exists r n' sc,
    llm_score_page USE_MOCK KEY client html url c model n = (inr r, n') /\
    Dict.get "scores" r = Some (VDict sc) /\
    (forall k, In k cs -> In k (Dict.keys sc)) /\
    (heuristic_mode USE_MOCK KEY = true \/
     (exists e, llm_attempt KEY client html url cs model n = inl e) ->
     (forall k, In k (Dict.keys sc) <-> In k cs) /\ NoDup (Dict.keys sc)) /\
    (forall d0 sc0,
       heuristic_mode USE_MOCK KEY = false ->
       request KEY client html url cs model n = Parsed (VDict d0) ->
       payload_scores d0 = Some sc0 ->
       normalize cs (VDict d0) = inr r ->
       forall k, In k (Dict.keys sc) <-> In k (Dict.keys sc0) \/ In k cs).
Proof.
  intros cs. subst cs.
  destruct (score_page_cases USE_MOCK KEY client html url c model n)
    as [(Hm & r & Hr & E)|[(Hm & e & r & He & Hr & E)
                          |(Hm & d0 & sc0 & r & Hq & Hp & Hn & E)]].
  - destruct Hr as (o & -> & _).
    eexists _, _, _. split; [exact E|]. split; [reflexivity|].
    split; [intros k; apply mock_scores_keys|]. split.
    + intros _. split; [intros k; apply mock_scores_keys|].
      apply mock_scores_nodup.
    + intros d0 sc0 Hm'. congruence.
  - destruct Hr as (o & -> & _).
    eexists _, _, _. split; [exact E|]. split; [reflexivity|].
    split; [intros k; apply mock_scores_keys|]. split.
    + intros _. split; [intros k; apply mock_scores_keys|].
      apply mock_scores_nodup.
    + intros d0 sc0 _ Hq _ Hn. unfold llm_attempt in He.
      rewrite Hq in He. congruence.
  - destruct (normalize_spec _ _ _ _ Hp Hn) as (Hs & _).
    eexists _, _, _. split; [exact E|]. split; [exact Hs|].
    split; [intros k; apply filled_keys|]. split.
    + intros [H|(e & He)]; [congruence|].
      unfold llm_attempt in He. rewrite Hq in He. congruence.
    + intros d0' sc0' _ Hq' Hp' _ k. rewrite Hq in Hq'.
      injection Hq' as <-. rewrite Hp in Hp'. injection Hp' as <-.
      unfold filled. rewrite fill_keys. tauto.
Qed.

(** C3, as stated, fails on the normalised LLM path: a criterion the
    payload omits is given the score 0. *)
Lemma omitted_criterion_scores_zero :
  exists r n',
    llm_score_page false (Some "sk-test") (replies (VDict []))
      "<h1>Hi</h1>" None None "gpt-5-mini" 0%nat
    = (inr r, n') /\
    ~ scores_in_range r.
Proof.
  eexists _, _. split; [vm_compute; reflexivity|].
  intros (sc & Hsc & Hk). vm_compute in Hsc. injection Hsc as <-.
  destruct (Hk "clarity" _ eq_refl) as (z & Hz & Hr).
  vm_compute in Hz. injection Hz as <-. lia.
Qed.

(** C3, amended.  In heuristic mode and after a fallback every entry of
    [scores] is [{"score": z, "feedback": fb}] with [z] an [int] from 1
    to 10.  When a payload was normalised, its entries are returned as
    they came, and a requested criterion it omits gets the score 0. *)
Theorem heuristic_scores_in_range USE_MOCK KEY client html url c model n :
  let cs := list_or c DEFAULT_CRITERIA in
  exists r n' sc,
    llm_score_page USE_MOCK KEY client html url c model n = (inr r, n') /\
    Dict.get "scores" r = Some (VDict sc) /\
    (heuristic_mode USE_MOCK KEY = true \/
     (exists e, llm_attempt KEY client html url cs model n = inl e) ->
     scored sc /\ scores_in_range r) /\
    (forall d0 sc0,
       heuristic_mode USE_MOCK KEY = false ->
       request KEY client html url cs model n = Parsed (VDict d0) ->
       payload_scores d0 = Some sc0 ->
       normalize cs (VDict d0) = inr r ->
       forall k,
         Dict.get k sc
         = match Dict.get k sc0 with
           | Some e => Some e
           | None => if requested k cs then Some (entry 0 "") else None
           end).
Proof.
  intros cs. subst cs.
  destruct (score_page_cases USE_MOCK KEY client html url c model n)
    as [(Hm & r & Hr & E)|[(Hm & e & r & He & Hr & E)
                          |(Hm & d0 & sc0 & r & Hq & Hp & Hn & E)]].
  - destruct Hr as (o & -> & _).
    eexists _, _, _. split; [exact E|]. split; [reflexivity|]. split.
    + intros _. split; [apply mock_scores_scored|].
      eexists. split; [reflexivity|]. intros k e.
      apply scored_scores_in_range, mock_scores_scored.
    + intros d0 sc0 Hm'. congruence.
  - destruct Hr as (o & -> & _).
    eexists _, _, _. split; [exact E|]. split; [reflexivity|]. split.
    + intros _. split; [apply mock_scores_scored|].
      eexists. split; [reflexivity|]. intros k e'.
      apply scored_scores_in_range, mock_scores_scored.
    + intros d0 sc0 _ Hq _ Hn. unfold llm_attempt in He.
      rewrite Hq in He. congruence.
  - destruct (normalize_spec _ _ _ _ Hp Hn) as (Hs & _).
    eexists _, _, _. split; [exact E|]. split; [exact Hs|]. split.
    + intros [H|(e & He)]; [congruence|].
      unfold llm_attempt in He. rewrite Hq in He. congruence.
    + intros d0' sc0' _ Hq' Hp' _ k. rewrite Hq in Hq'.
      injection Hq' as <-. rewrite Hp in Hp'. injection Hp' as <-.
      apply get_filled.
Qed.

(** ** Response normaliser *)











(** ** Comparator *)

(** C5, as stated, fails when a criterion is itself named "overall": the
    entry [delta["overall"]] is then the difference of the two scores of
    that criterion (5 - 5), not of the two [overall] fields (6.0 - 4.5). *)
Lemma overall_named_criterion_breaks_delta :
  exists r n',
    compare_pages true None (fails "unused")
      {| before_html := ""; after_html := "<h1>New</h1>"; url := None;
         criteria := Some ["clarity"; "overall"] |} 0%nat
    = (inr r, n') /\
    ~ overall_delta_is_aggregate r.
Proof.
  eexists _, _. split; [vm_compute; reflexivity|].
  intros (before & after & delta & ob & oa & d & v
          & Hb & Ha & Hd & Hob & Hoa & Hs & Hr & Hv).
  vm_compute in Hb. injection Hb as <-.
  vm_compute in Ha. injection Ha as <-.
  vm_compute in Hd. injection Hd as <-.
  vm_compute in Hob. injection Hob as <-.
  vm_compute in Hoa. injection Hoa as <-.
  vm_compute in Hs. injection Hs as <-.
  vm_compute in Hr. injection Hr as <-.
  vm_compute in Hv. discriminate Hv.
Qed.

(** C5, amended.  When [compare_pages] returns, [before] and [after]
    are the answers of two successive runs of [llm_score_page] on the
    same criteria; for every requested criterion [c], [delta[c]] is
    [round(after["scores"][c]["score"] - before["scores"][c]["score"], 2)];
    and when neither [scores] mapping has the key "overall",
    [delta["overall"]] is [round(after["overall"] - before["overall"], 2)]. *)
Theorem delta_of_requested_criteria USE_MOCK KEY client req n r n' :
  compare_pages USE_MOCK KEY client req n = (inr r, n') ->
  let cs := list_or (criteria req) DEFAULT_CRITERIA in
  exists before after delta n1,
    llm_score_page USE_MOCK KEY client (before_html req) (url req) (Some cs)
      "gpt-5-mini" n = (inr before, n1) /\
    llm_score_page USE_MOCK KEY client (after_html req) (url req) (Some cs)
      "gpt-5-mini" n1 = (inr after, n') /\
    r = [("before", VDict before); ("after", VDict after);
         ("delta", VDict delta)] /\
    (forall c,
       In c cs ->
       exists b a d v,
         score_at before c = inr b /\ score_at after c = inr a /\
         PyNum.sub a b = inr d /\ PyNum.round2 d = inr v /\
         Dict.get c delta = Some v) /\
    (forall scb sca,
       Dict.get "scores" before = Some (VDict scb) ->
       Dict.get "scores" after = Some (VDict sca) ->
       ~ In "overall" (Dict.keys scb) -> ~ In "overall" (Dict.keys sca) ->
       exists ob oa d v,
         Dict.get "overall" before = Some ob /\
         Dict.get "overall" after = Some oa /\
         PyNum.sub oa ob = inr d /\ PyNum.round2 d = inr v /\
         Dict.get "overall" delta = Some v).
Proof.
  intros H cs.
  destruct (compare_delta _ _ _ _ _ _ _ H)
    as (rb & ra & delta & n1 & Eb & Ea & -> & Hb & Ha & Hin & _).
  fold cs in Eb, Ea, Hb, Ha, Hin.
  exists rb, ra, delta, n1. split; [exact Eb|]. split; [exact Ea|].
  split; [reflexivity|]. split.
  - intros c Hc.
    destruct (Hin c) as (v & Hv & Hg); [apply in_or_app; auto|].
    destruct (delta_value_inv _ _ _ _ Hv) as (b & a & d & Sb & Sa & Hd & Hr).
    rewrite (side_answers cs) in Sb, Sa by assumption.
    exists b, a, d, v. auto.
  - intros scb sca Hsb Hsa Hnb Hna.
    destruct (Hin "overall") as (v & Hv & Hg);
      [apply in_or_app; right; left; reflexivity|].
    destruct (delta_value_inv _ _ _ _ Hv) as (b & a & d & Sb & Sa & Hd & Hr).
    rewrite (side_not_in_scores _ scb) in Sb by assumption.
    rewrite (side_not_in_scores _ sca) in Sa by assumption.
    unfold lookup in Sb, Sa.
    destruct (Dict.get "overall" rb) as [ob|]; [|discriminate].
    destruct (Dict.get "overall" ra) as [oa|]; [|discriminate].
    injection Sb as ->. injection Sa as ->.
    exists b, a, d, v. auto.
Qed.

Lemma delta_of_requested_criteria_witness :
  exists r,
    compare_pages true None (fails "unused")
      {| before_html := ""; after_html := "<h1>New</h1>"; url := None;
         criteria := None |} 0%nat
    = (inr r, 0%nat) /\
    exists before after delta,
      r = [("before", VDict before); ("after", VDict after);
           ("delta", VDict delta)] /\
      Dict.get "clarity" delta = Some (VInt 3) /\
      Dict.get "cta" delta = Some (VInt 2).
Proof.
  destruct (compare_pages true None (fails "unused")
              {| before_html := ""; after_html := "<h1>New</h1>";
                 url := None; criteria := None |} 0%nat)
    as [[e|r] n'] eqn:E; [vm_compute in E; discriminate E|].
  destruct (delta_of_requested_criteria _ _ _ _ _ _ _ E)
    as (before & after & delta & n1 & _ & _ & Hr & _).
  vm_compute in E. injection E as E <-. exists r. split; [reflexivity|].
  exists before, after, delta. split; [exact Hr|].
  rewrite Hr in E. injection E as _ _ <-. split; reflexivity.
Defined.

(** C10.  When "overall" is one of the requested criteria and
    [compare_pages] returns, [before] and [after] are the answers of the
    two successive runs of [llm_score_page], and [delta["overall"]] is
    the rounded difference of the two scores of the criterion named
    "overall", as for any other requested criterion; the last round of
    the loop, for the literal key, stores that same value again.  In
    heuristic mode both scores are the neutral 5 and the entry is 0,
    whatever the two [overall] fields are. *)
Theorem overall_criterion_shadows_aggregate
    USE_MOCK KEY client req n r n' :
  In "overall" (list_or (criteria req) DEFAULT_CRITERIA) ->
  compare_pages USE_MOCK KEY client req n = (inr r, n') ->
  let cs := list_or (criteria req) DEFAULT_CRITERIA in
  exists before after delta n1 b a d v,
    llm_score_page USE_MOCK KEY client (before_html req) (url req) (Some cs)
      "gpt-5-mini" n = (inr before, n1) /\
    llm_score_page USE_MOCK KEY client (after_html req) (url req) (Some cs)
      "gpt-5-mini" n1 = (inr after, n') /\
    r = [("before", VDict before); ("after", VDict after);
         ("delta", VDict delta)] /\
    score_at before "overall" = inr b /\
    score_at after "overall" = inr a /\
    PyNum.sub a b = inr d /\ PyNum.round2 d = inr v /\
    Dict.get "overall" delta = Some v /\
    (heuristic_mode USE_MOCK KEY = true ->
     b = VInt 5 /\ a = VInt 5 /\ v = VInt 0).
Proof.
  intros Hov H cs.
  destruct (compare_delta _ _ _ _ _ _ _ H)
    as (rb & ra & delta & n1 & Eb & Ea & -> & Hb & Ha & Hin & _).
  fold cs in Eb, Ea, Hb, Ha, Hin, Hov.
  destruct (Hin "overall") as (v & Hv & Hg); [apply in_or_app; auto|].
  destruct (delta_value_inv _ _ _ _ Hv) as (b & a & d & Sb & Sa & Hd & Hr).
  rewrite (side_answers _ _ _ Hb Hov) in Sb.
  rewrite (side_answers _ _ _ Ha Hov) in Sa.
  exists rb, ra, delta, n1, b, a, d, v.
  split; [exact Eb|]. split; [exact Ea|]. split; [reflexivity|].
  split; [exact Sb|]. split; [exact Sa|]. split; [exact Hd|].
  split; [exact Hr|]. split; [exact Hg|].
  intros Hm.
  destruct (compare_heuristic USE_MOCK KEY client req n Hm)
    as (rb' & ra' & delta' & _ & _ & Hb' & Ha' & _ & E).
  rewrite E in H. injection H as <- <- _.
  rewrite (score_at_unknown _ _ _ _ "overall" Hb' Hov) in Sb
    by discriminate.
  rewrite (score_at_unknown _ _ _ _ "overall" Ha' Hov) in Sa
    by discriminate.
  injection Sb as <-. injection Sa as <-.
  injection Hd as <-. injection Hr as <-. repeat split.
Qed.

Lemma overall_criterion_shadows_aggregate_witness :
  In "overall" (list_or (Some ["clarity"; "overall"]) DEFAULT_CRITERIA) /\
  exists before after delta,
    llm_score_page true None (fails "unused") "" None
      (Some ["clarity"; "overall"]) "gpt-5-mini" 0%nat
    = (inr before, 0%nat) /\
    llm_score_page true None (fails "unused") "<h1>New</h1>" None
      (Some ["clarity"; "overall"]) "gpt-5-mini" 0%nat
    = (inr after, 0%nat) /\
    compare_pages true None (fails "unused")
      {| before_html := ""; after_html := "<h1>New</h1>"; url := None;
         criteria := Some ["clarity"; "overall"] |} 0%nat
    = (inr [("before", VDict before); ("after", VDict after);
            ("delta", VDict delta)], 0%nat) /\
    score_at before "overall" = inr (VInt 5) /\
    score_at after "overall" = inr (VInt 5) /\
    Dict.get "overall" before = Some (VFloat (PyFloat.quot 9 2)) /\
    Dict.get "overall" after = Some (VFloat (PyFloat.of_int 6)) /\
    Dict.get "overall" delta = Some (VInt 0).
Proof.
  split; [right; left; reflexivity|].
  destruct (compare_pages true None (fails "unused")
              {| before_html := ""; after_html := "<h1>New</h1>";
                 url := None; criteria := Some ["clarity"; "overall"] |}
              0%nat)
    as [[e|r] n'] eqn:E; [vm_compute in E; discriminate E|].
  destruct (overall_criterion_shadows_aggregate true None (fails "unused")
              {| before_html := ""; after_html := "<h1>New</h1>";
                 url := None; criteria := Some ["clarity"; "overall"] |}
              0%nat r n' (or_intror (or_introl eq_refl)) E)
    as (before & after & delta & n1 & b & a & d & v
        & Eb & Ea & Hr & Sb & Sa & _ & _ & Hg & Hv).
  destruct (Hv eq_refl) as (-> & -> & ->).
  cbn [before_html after_html url criteria list_or] in Eb, Ea.
  assert (Hn1 : n1 = 0%nat) by (vm_compute in Eb; congruence).
  assert (Hn' : n' = 0%nat) by (vm_compute in E; congruence).
  subst n1 n'. subst r.
  exists before, after, delta.
  split; [exact Eb|]. split; [exact Ea|]. split; [reflexivity|].
  split; [exact Sb|]. split; [exact Sa|].
  vm_compute in Eb. injection Eb as <-.
  vm_compute in Ea. injection Ea as <-.
  split; [vm_compute; reflexivity|]. split; [vm_compute; reflexivity|].
  exact Hg.
Defined.

(** C6.  In heuristic mode both comparisons return, their [delta]
    mappings have the same keys, and for every key [k] the entry of
    [compare(X, Y)] equals, under Python's [==], the negation of the
    entry of [compare(Y, X)]. *)
Theorem delta_antisymmetric USE_MOCK KEY client X Y u c n :
  heuristic_mode USE_MOCK KEY = true ->
  exists rXY rYX dXY dYX,
    compare_pages USE_MOCK KEY client
      {| before_html := X; after_html := Y; url := u; criteria := c |} n
    = (inr rXY, n) /\
    compare_pages USE_MOCK KEY client
      {| before_html := Y; after_html := X; url := u; criteria := c |} n
    = (inr rYX, n) /\
    Dict.get "delta" rXY = Some (VDict dXY) /\
    Dict.get "delta" rYX = Some (VDict dYX) /\
    (forall k, In k (Dict.keys dXY) <-> In k (Dict.keys dYX)) /\
    forall k v,
      Dict.get k dXY = Some v ->
      exists v' nv,
        Dict.get k dYX = Some v' /\ PyNum.neg v' = inr nv /\
        PyNum.eqb v nv = true.
Proof.
  intros Hm.
  destruct (compare_heuristic USE_MOCK KEY client
              {| before_html := X; after_html := Y; url := u;
                 criteria := c |} n Hm)
    as (rX & rY & dXY & EX & EY & HX & HY & LXY & CXY).
  destruct (compare_heuristic USE_MOCK KEY client
              {| before_html := Y; after_html := X; url := u;
                 criteria := c |} n Hm)
    as (rY' & rX' & dYX & EY' & EX' & _ & _ & LYX & CYX).
  cbn [before_html after_html criteria] in *.
  set (cs := list_or c DEFAULT_CRITERIA) in *.
  rewrite EY in EY'. injection EY' as <-.
  rewrite EX in EX'. injection EX' as <-.
  destruct (delta_loop _ _ _ _ _ LXY) as (InXY & _ & KXY).
  destruct (delta_loop _ _ _ _ _ LYX) as (InYX & _ & KYX).
  eexists _, _, dXY, dYX. split; [exact CXY|]. split; [exact CYX|].
  split; [reflexivity|]. split; [reflexivity|]. split.
  - intros k. rewrite KXY, KYX. reflexivity.
  - intros k v Hv.
    assert (Hk : In k (cs ++ ["overall"])).
    { assert (Hin : In k (Dict.keys dXY))
        by (apply mem_keys; unfold Dict.mem; rewrite Hv; reflexivity).
      apply KXY in Hin. simpl in Hin. tauto. }
    destruct (InXY k Hk) as (v1 & V1 & G1).
    destruct (InYX k Hk) as (v2 & V2 & G2).
    rewrite G1 in Hv. injection Hv as <-.
    destruct (delta_value_heuristic _ _ _ _ _ _ _ k HX HY) as [I1 F1].
    destruct (delta_value_heuristic _ _ _ _ _ _ _ k HY HX) as [I2 F2].
    destruct (in_dec string_dec k cs) as [Hc|Hc].
    + destruct (I1 Hc) as (zx & zy & Sx & Sy & D1).
      destruct (I2 Hc) as (zy' & zx' & Sy' & Sx' & D2).
      rewrite Sx in Sx'. injection Sx' as <-.
      rewrite Sy in Sy'. injection Sy' as <-.
      rewrite D1 in V1. injection V1 as <-.
      rewrite D2 in V2. injection V2 as <-.
      exists (VInt (zx - zy)), (VInt (- (zx - zy))).
      split; [exact G2|]. split; [reflexivity|].
      cbn [PyNum.eqb PyNum.as_num]. apply Z.eqb_eq. lia.
    + destruct (F1 Hc) as (ox & oy & Ox & Oy & Sx & Sy & D1).
      destruct (F2 Hc) as (oy' & ox' & Oy' & Ox' & _ & _ & D2).
      rewrite Ox in Ox'. injection Ox' as <-.
      rewrite Oy in Oy'. injection Oy' as <-.
      rewrite D1 in V1. injection V1 as <-.
      rewrite D2 in V2. injection V2 as <-.
      eexists _, _. split; [exact G2|]. split; [reflexivity|].
      cbn [PyNum.eqb PyNum.as_num].
      apply (FloatFacts.round2_sub_antisym oy ox 9); try assumption. lia.
Qed.

Lemma delta_antisymmetric_witness :
  heuristic_mode true None = true /\
  exists rXY rYX dXY dYX,
    compare_pages true None (fails "unused")
      {| before_html := ""; after_html := "<h1>New</h1>"; url := None;
         criteria := None |} 0%nat
    = (inr rXY, 0%nat) /\
    compare_pages true None (fails "unused")
      {| before_html := "<h1>New</h1>"; after_html := ""; url := None;
         criteria := None |} 0%nat
    = (inr rYX, 0%nat) /\
    Dict.get "delta" rXY = Some (VDict dXY) /\
    Dict.get "delta" rYX = Some (VDict dYX) /\
    (forall k, In k (Dict.keys dXY) <-> In k (Dict.keys dYX)) /\
    forall k v,
      Dict.get k dXY = Some v ->
      exists v' nv,
        Dict.get k dYX = Some v' /\ PyNum.neg v' = inr nv /\
        PyNum.eqb v nv = true.
Proof.
  split; [reflexivity|].
  apply (delta_antisymmetric true None (fails "unused") "" "<h1>New</h1>"
           None None 0%nat).
  reflexivity.
Defined.

(** ** Heuristic scorer *)

(** C7.  The heuristic answer for a page and a criteria list depends on
    nothing else: under any two configurations in heuristic mode, with
    any service, URL, model and request count, [llm_score_page] returns
    the one value of [_mock_score] for that page and those criteria,
    sends no request, and two calls in a row return it twice. *)
Theorem heuristic_scorer_deterministic
    um1 key1 client1 url1 model1 n1 um2 key2 client2 url2 model2 n2
    html c :
  heuristic_mode um1 key1 = true ->
  heuristic_mode um2 key2 = true ->
  exists r,
    _mock_score html (list_or c DEFAULT_CRITERIA) = inr r /\
    llm_score_page um1 key1 client1 html url1 c model1 n1 = (inr r, n1) /\
    llm_score_page um2 key2 client2 html url2 c model2 n2 = (inr r, n2) /\
    twice (llm_score_page um1 key1 client1 html url1 c model1) n1
    = (inr (r, r), n1).
Proof.
  intros H1 H2.
  destruct (mock_score_ok html _ (list_or_nonempty c)) as (o & E & _).
  eexists. split; [exact E|].
  unfold twice, io_bind, io_lift.
  rewrite !score_page_heuristic by assumption. rewrite E. auto.
Qed.

Lemma heuristic_scorer_deterministic_witness :
  heuristic_mode true None = true /\
  heuristic_mode false (Some "") = true /\
  exists r,
    _mock_score "<h1>Hi</h1>" (list_or (Some ["tone"]) DEFAULT_CRITERIA)
    = inr r /\
    llm_score_page true None (fails "unused") "<h1>Hi</h1>" None
      (Some ["tone"]) "gpt-5-mini" 0%nat = (inr r, 0%nat) /\
    llm_score_page false (Some "") (replies VNone) "<h1>Hi</h1>"
      (Some "https://example.org") (Some ["tone"]) "other" 7%nat
    = (inr r, 7%nat) /\
    twice (llm_score_page true None (fails "unused") "<h1>Hi</h1>" None
             (Some ["tone"]) "gpt-5-mini") 0%nat
    = (inr (r, r), 0%nat).
Proof.
  split; [reflexivity|]. split; [reflexivity|].
  apply (heuristic_scorer_deterministic
           true None (fails "unused") None "gpt-5-mini" 0%nat
           false (Some "") (replies VNone) (Some "https://example.org")
           "other" 7%nat "<h1>Hi</h1>" (Some ["tone"]));
    reflexivity.
Defined.

(** C8, as stated, fails in its last part: the text extracted from the
    example page has two words, "welcome" and "home", not one. *)
Lemma welcome_page_has_two_words :
  ~ words (extract "<h1>Welcome</h1><title>Home</title>") = 1.
Proof. vm_compute. discriminate. Qed.

(** C8, amended.  For the page [<h1>Welcome</h1><title>Home</title>]
    with the default criteria in heuristic mode: clarity 9, credibility
    3, cta 6 and overall 6.0; the extracted text is " welcome  home ",
    two words. *)
Theorem welcome_page_scores key client u model n :
  let html := "<h1>Welcome</h1><title>Home</title>" in
  exists r,
    llm_score_page true key client html u None model n = (inr r, n) /\
    score_at r "clarity" = inr (VInt 9) /\
    score_at r "credibility" = inr (VInt 3) /\
    score_at r "cta" = inr (VInt 6) /\
    Dict.get "overall" r = Some (VFloat (PyFloat.of_int 6)) /\
    txt (extract html) = " welcome  home " /\
    words (extract html) = 2.
Proof.
  intros html. rewrite score_page_heuristic by reflexivity.
  assert (E : _mock_score html (list_or None DEFAULT_CRITERIA)
              = inr [("scores",
                      VDict
                        [("clarity", entry 9 "Clear headline.");
                         ("credibility",
                          entry 3
                            "Add testimonials/trust badges. Show security/privacy info.");
                         ("cta", entry 6 "Add a prominent CTA.")]);
                     ("overall", VFloat (PyFloat.of_int 6));
                     ("notes", VStr "Mock mode: heuristic scoring")])
    by (vm_compute; reflexivity).
  rewrite E. eexists. split; [reflexivity|].
  repeat split; vm_compute; reflexivity.
Qed.

(** ** Text extractor *)

(** C9, as stated, fails: a page without any tag can still hold a
    call-to-action keyword and trust keywords in its text. *)
Lemma tagless_page_with_keywords :
  has_tag "Trusted by 500 clients - contact us" = false /\
  ~ signals_off "Trusted by 500 clients - contact us".
Proof.
  split; [reflexivity|]. intros (_ & _ & Hb & _). vm_compute in Hb.
  discriminate Hb.
Qed.

(** C9, amended.  For a page that contains no tag span, the extracted
    text is the page in lower case, [have_h1] and [have_title] are
    false, and [words] is the number of whitespace-separated tokens of
    the page; [have_btn] and [trust_kw] are read off that text: the
    literal ["<button"] or a call-to-action keyword, and the number of
    trust keywords it contains. *)
Theorem tagless_page_signals html :
  has_tag html = false ->
  let sg := extract html in
  txt sg = lower html /\
  have_h1 sg = false /\
  have_title sg = false /\
  words sg = Z.of_nat (List.length (split html)) /\
  have_btn sg
  = (contains "<button" (lower html)
     || existsb (fun k => contains k (lower html)) CTA_KEYWORDS) /\
  trust_kw sg = count_in TRUST_KEYWORDS (lower html).
Proof.
  intros H sg. unfold sg, extract.
  cbn [txt have_h1 have_title have_btn trust_kw words].
  rewrite (sub_tags_no_tag _ H).
  split; [reflexivity|].
  split; [apply no_tag_no_element; [reflexivity | exact H]|].
  split; [apply no_tag_no_element; [reflexivity | exact H]|].
  split; [|split; reflexivity].
  rewrite split_lower, length_map. reflexivity.
Qed.

Lemma tagless_page_signals_witness :
  has_tag "Fast  setup, a < b.  Contact us" = false /\
  let sg := extract "Fast  setup, a < b.  Contact us" in
  txt sg = "fast  setup, a < b.  contact us" /\
  have_h1 sg = false /\
  have_title sg = false /\
  words sg = 7 /\
  have_btn sg = true /\
  trust_kw sg = 0.
Proof.
  split; [reflexivity|].
  exact (tagless_page_signals "Fast  setup, a < b.  Contact us" eq_refl).
Defined.


(* ================================================================== *)
(** * Further properties of the module *)
(* ================================================================== *)

(** ** Defaulted criteria and the request counter *)

Lemma score_page_defaulted USE_MOCK KEY client html u c model n :
  llm_score_page USE_MOCK KEY client html u
    (Some (list_or c DEFAULT_CRITERIA)) model n
  = llm_score_page USE_MOCK KEY client html u c model n.
Proof. unfold llm_score_page. rewrite list_or_idem. reflexivity. Qed.

Lemma score_page_count USE_MOCK KEY client html u c model n :
  snd (llm_score_page USE_MOCK KEY client html u c model n)
  = if heuristic_mode USE_MOCK KEY then n else S n.
Proof.
  unfold llm_score_page. destruct (heuristic_mode USE_MOCK KEY);
    [reflexivity|].
  destruct (llm_attempt _ _ _ _ _ _ _); reflexivity.
Qed.

(** ** How the routes compose *)

(** X2.  [POST /compare] is two [POST /score] calls in a row, on the same
    URL and criteria: [before] is the answer for [before_html], [after]
    the answer for [after_html] from the state the first call left. *)
Theorem compare_is_two_scores USE_MOCK KEY client req n r n' :
  compare_pages USE_MOCK KEY client req n = (inr r, n') ->
  exists before after n1,
    score_page USE_MOCK KEY client
      {| ScoreRequest.html := before_html req;
         ScoreRequest.url := url req;
         ScoreRequest.criteria := criteria req |} n = (inr before, n1) /\
    score_page USE_MOCK KEY client
      {| ScoreRequest.html := after_html req;
         ScoreRequest.url := url req;
         ScoreRequest.criteria := criteria req |} n1 = (inr after, n') /\
    Dict.get "before" r = Some (VDict before) /\
    Dict.get "after" r = Some (VDict after).
Proof.
  intros H.
  destruct (compare_inv _ _ _ _ _ _ _ H)
    as (rb & ra & delta & n1 & Eb & Ea & _ & ->).
  rewrite score_page_defaulted in Eb, Ea.
  exists rb, ra, n1. unfold score_page. cbn [ScoreRequest.html
    ScoreRequest.url ScoreRequest.criteria]. auto.
Qed.

Lemma compare_is_two_scores_witness :
  exists r,
    compare_pages false (Some "sk-test") (fails "TimeoutError")
      {| before_html := ""; after_html := "<h1>New</h1>"; url := None;
         criteria := None |} 0%nat
    = (inr r, 2%nat) /\
    exists before after,
      score_page false (Some "sk-test") (fails "TimeoutError")
        {| ScoreRequest.html := ""; ScoreRequest.url := None;
           ScoreRequest.criteria := None |} 0%nat = (inr before, 1%nat) /\
      score_page false (Some "sk-test") (fails "TimeoutError")
        {| ScoreRequest.html := "<h1>New</h1>"; ScoreRequest.url := None;
           ScoreRequest.criteria := None |} 1%nat = (inr after, 2%nat) /\
      Dict.get "before" r = Some (VDict before) /\
      Dict.get "after" r = Some (VDict after).
Proof.
  destruct (compare_pages false (Some "sk-test") (fails "TimeoutError")
              {| before_html := ""; after_html := "<h1>New</h1>";
                 url := None; criteria := None |} 0%nat)
    as [[e|r] n'] eqn:E; [vm_compute in E; discriminate E|].
  destruct (compare_is_two_scores _ _ _ _ _ _ _ E)
    as (before & after & n1 & Hb & Ha & Gb & Ga).
  cbn [before_html after_html url criteria] in Hb, Ha.
  assert (n' = 2%nat) as -> by (vm_compute in E; congruence).
  assert (n1 = 1%nat) as ->.
  { pose proof (f_equal snd Hb) as C. cbn [snd] in C.
    unfold score_page in C. rewrite score_page_count in C.
    vm_compute in C. congruence. }
  exists r. split; [reflexivity|]. exists before, after. auto.
Defined.

(** ** The delta mapping *)

Lemma delta_loop_nodup before after l :
  forall d0 d,
    foldM (delta_step before after) l d0 = inr d ->
    NoDup (Dict.keys d0) -> NoDup (Dict.keys d).
Proof.
  induction l as [|c0 l IH]; intros d0 d H Hd.
  - injection H as <-. exact Hd.
  - cbn [foldM] in H. rewrite delta_step_value in H.
    destruct (delta_value before after c0) as [e|v0]; [discriminate|].
    cbn [bind ret] in H. apply (IH _ _ H). apply nodup_keys_set, Hd.
Qed.

(** X3.  Whenever [compare_pages] returns, the keys of [delta] are the
    requested criteria and "overall", each once: a criterion requested
    twice, or one named "overall", does not give a second entry. *)
Theorem delta_keys USE_MOCK KEY client req n r n' :
  compare_pages USE_MOCK KEY client req n = (inr r, n') ->
  exists delta,
    Dict.get "delta" r = Some (VDict delta) /\
    (forall k,
       In k (Dict.keys delta)
       <-> In k (list_or (criteria req) DEFAULT_CRITERIA) \/ k = "overall")
    /\ NoDup (Dict.keys delta).
Proof.
  intros H.
  destruct (compare_inv _ _ _ _ _ _ _ H)
    as (rb & ra & delta & n1 & _ & _ & Ed & ->).
  exists delta. split; [reflexivity|].
  destruct (delta_loop _ _ _ _ _ Ed) as (_ & _ & Hk). split.
  - intros k. rewrite Hk, in_app_iff. simpl. intuition.
  - apply (delta_loop_nodup _ _ _ _ _ Ed). constructor.
Qed.

Lemma delta_keys_witness :
  exists r,
    compare_pages true None (fails "unused")
      {| before_html := ""; after_html := "<h1>New</h1>"; url := None;
         criteria := Some ["cta"; "overall"; "cta"] |} 0%nat
    = (inr r, 0%nat) /\
    exists delta,
      Dict.get "delta" r = Some (VDict delta) /\
      Dict.keys delta = ["cta"; "overall"].
Proof.
  destruct (compare_pages true None (fails "unused")
              {| before_html := ""; after_html := "<h1>New</h1>";
                 url := None; criteria := Some ["cta"; "overall"; "cta"] |}
              0%nat)
    as [[e|r] n'] eqn:E; [vm_compute in E; discriminate E|].
  destruct (delta_keys _ _ _ _ _ _ _ E) as (delta & Hd & _ & _).
  vm_compute in E. injection E as <- <-. eexists. split; [reflexivity|].
  exists delta. split; [exact Hd|].
  vm_compute in Hd. injection Hd as <-. reflexivity.
Defined.

Lemma sub_self x :
  PyFloat.is_finite x = true ->
  PyFloat.is_zero (PyFloat.sub x x) = true.
Proof.
  destruct x as [s|s| |s m e]; try discriminate; intros _.
  - destruct s; reflexivity.
  - unfold PyFloat.sub, SFsub. cbv zeta. rewrite Z.sub_diag. reflexivity.
Qed.

(** X4.  In heuristic mode, comparing a page with itself returns a [delta]
    whose every entry equals 0. *)
Theorem compare_same_page_zero USE_MOCK KEY client X u c n :
  heuristic_mode USE_MOCK KEY = true ->
  exists r delta,
    compare_pages USE_MOCK KEY client
      {| before_html := X; after_html := X; url := u; criteria := c |} n
    = (inr r, n) /\
    Dict.get "delta" r = Some (VDict delta) /\
    forall k v, Dict.get k delta = Some v -> PyNum.eqb v (VInt 0) = true.
Proof.
  intros Hm.
  destruct (compare_heuristic USE_MOCK KEY client
              {| before_html := X; after_html := X; url := u;
                 criteria := c |} n Hm)
    as (rb & ra & delta & Eb & Ea & Hb & Ha & L & C).
  cbn [before_html after_html criteria] in *.
  set (cs := list_or c DEFAULT_CRITERIA) in *.
  rewrite Eb in Ea. injection Ea as <-.
  eexists _, delta. split; [exact C|]. split; [reflexivity|].
  destruct (delta_loop _ _ _ _ _ L) as (Hin & _ & Hk).
  intros k v Hv.
  assert (Hl : In k (cs ++ ["overall"])).
  { assert (Hi : In k (Dict.keys delta))
      by (apply mem_keys; unfold Dict.mem; rewrite Hv; reflexivity).
    apply Hk in Hi. simpl in Hi. tauto. }
  destruct (Hin k Hl) as (v' & V & G). rewrite G in Hv. injection Hv as <-.
  destruct (delta_value_heuristic _ _ _ _ _ _ _ k Hb Hb) as [I F].
  destruct (in_dec string_dec k cs) as [Hc|Hc].
  - destruct (I Hc) as (zb & za & Sb & Sa & D).
    rewrite Sb in Sa. injection Sa as <-.
    rewrite D in V. injection V as <-.
    cbn [PyNum.eqb PyNum.as_num]. apply Z.eqb_eq. lia.
  - destruct (F Hc) as (ob & oa & Ob & Oa & Sb & _ & D).
    rewrite Ob in Oa. injection Oa as <-.
    rewrite D in V. injection V as <-.
    cbn [PyNum.eqb PyNum.as_num].
    pose proof (sub_self ob (FloatFacts.small_finite _ _ Sb)) as Z0.
    destruct (PyFloat.sub ob ob); try discriminate. reflexivity.
Qed.

Lemma compare_same_page_zero_witness :
  heuristic_mode false None = true /\
  exists r delta,
    compare_pages false None (fails "unused")
      {| before_html := "<h1>Hi</h1> Sign up"; after_html := "<h1>Hi</h1> Sign up";
         url := None; criteria := None |} 3%nat
    = (inr r, 3%nat) /\
    Dict.get "delta" r = Some (VDict delta) /\
    forall k v, Dict.get k delta = Some v -> PyNum.eqb v (VInt 0) = true.
Proof.
  split; [reflexivity|].
  apply (compare_same_page_zero false None (fails "unused")
           "<h1>Hi</h1> Sign up" None None 3%nat).
  reflexivity.
Defined.

(** X5.  In heuristic mode the entry of [delta] for a requested criterion is
    an [int] between -9 and 9: the difference of two scores in 1..10. *)
Theorem heuristic_delta_bounds USE_MOCK KEY client req n :
  heuristic_mode USE_MOCK KEY = true ->
  exists r delta,
    compare_pages USE_MOCK KEY client req n = (inr r, n) /\
    Dict.get "delta" r = Some (VDict delta) /\
    forall c,
      In c (list_or (criteria req) DEFAULT_CRITERIA) ->
      exists z, Dict.get c delta = Some (VInt z) /\ -9 <= z <= 9.
Proof.
  intros Hm.
  destruct (compare_heuristic USE_MOCK KEY client req n Hm)
    as (rb & ra & delta & _ & _ & Hb & Ha & L & C).
  set (cs := list_or (criteria req) DEFAULT_CRITERIA) in *.
  eexists _, delta. split; [exact C|]. split; [reflexivity|].
  destruct (delta_loop _ _ _ _ _ L) as (Hin & _ & _).
  intros c Hc.
  destruct (Hin c) as (v & V & G); [apply in_or_app; auto|].
  destruct (side_heuristic _ _ _ _ c Hb) as [Ib _].
  destruct (side_heuristic _ _ _ _ c Ha) as [Ia _].
  destruct (Ib Hc) as (zb & Sb & Rb). destruct (Ia Hc) as (za & Sa & Ra).
  unfold delta_value in V. rewrite Sb, Sa in V.
  cbn [bind ret PyNum.sub PyNum.as_num PyNum.round2] in V.
  injection V as <-. exists (za - zb). split; [exact G | lia].
Qed.

Lemma heuristic_delta_bounds_witness :
  heuristic_mode true (Some "sk-test") = true /\
  exists r delta,
    compare_pages true (Some "sk-test") (fails "unused")
      {| before_html := ""; after_html := "<h1>New</h1>"; url := None;
         criteria := None |} 0%nat
    = (inr r, 0%nat) /\
    Dict.get "delta" r = Some (VDict delta) /\
    forall c,
      In c (list_or None DEFAULT_CRITERIA) ->
      exists z, Dict.get c delta = Some (VInt z) /\ -9 <= z <= 9.
Proof.
  split; [reflexivity|].
  apply (heuristic_delta_bounds true (Some "sk-test") (fails "unused")
           {| before_html := ""; after_html := "<h1>New</h1>"; url := None;
              criteria := None |} 0%nat).
  reflexivity.
Defined.

(** ** The normaliser on payloads of different shapes *)

Lemma setdefault_mem {V} k (v : V) d :
  Dict.mem k d = true -> Dict.setdefault k v d = d.
Proof. unfold Dict.setdefault. intros ->. reflexivity. Qed.

Lemma get_mem {V} k (v : V) d : Dict.get k d = Some v -> Dict.mem k d = true.
Proof. unfold Dict.mem. intros ->. reflexivity. Qed.

Lemma filled_id cs :
  forall sc, (forall c, In c cs -> In c (Dict.keys sc)) -> filled cs sc = sc.
Proof.
  induction cs as [|c cs IH]; intros sc H; [reflexivity|].
  unfold filled. cbn [fold_left].
  rewrite setdefault_mem by (apply mem_keys, H; left; reflexivity).
  apply IH. intros c' Hc'. apply H. right. exact Hc'.
Qed.

Lemma normalize_complete cs d sc :
  Dict.get "scores" d = Some (VDict sc) ->
  (forall c, In c cs -> In c (Dict.keys sc)) ->
  overall_unusable d = false ->
  Dict.mem "notes" d = true ->
  normalize cs (VDict d) = inr d.
Proof.
  intros Hs Hc Ho Hn.
  assert (Hp : payload_scores d = Some sc)
    by (unfold payload_scores; rewrite Hs; reflexivity).
  rewrite (normalize_eq cs d sc Hp). cbv zeta.
  rewrite Ho, (filled_id cs sc Hc).
  rewrite (setdefault_mem "scores") by (apply (get_mem _ _ _ Hs)).
  rewrite (set_get _ _ _ Hs). cbn [bind ret].
  rewrite setdefault_mem by exact Hn. reflexivity.
Qed.

(** X6.  A payload that already has an entry for every requested criterion,
    an [overall] that is an [int] or a [float] and a [notes] key is
    returned as it came: nothing is clamped, recomputed or reordered,
    whatever the scores and the [overall] are. *)
Theorem complete_payload_passes_through
    USE_MOCK KEY client html u c model n d sc :
  heuristic_mode USE_MOCK KEY = false ->
  request KEY client html u (list_or c DEFAULT_CRITERIA) model n
  = Parsed (VDict d) ->
  Dict.get "scores" d = Some (VDict sc) ->
  (forall k, In k (list_or c DEFAULT_CRITERIA) -> In k (Dict.keys sc)) ->
  overall_unusable d = false ->
  Dict.mem "notes" d = true ->
  llm_score_page USE_MOCK KEY client html u c model n = (inr d, S n).
Proof.
  intros Hm Hq Hs Hc Ho Hn. apply score_page_llm; [exact Hm|].
  unfold llm_attempt. rewrite Hq. apply (normalize_complete _ _ sc); auto.
Qed.

Lemma complete_payload_passes_through_witness :
  llm_score_page false (Some "sk-test")
    (replies (VDict [("notes", VStr "n/a");
                     ("scores", VDict [("cta", entry 42 "Huge.")]);
                     ("overall", VInt (-3))]))
    "<h1>Hi</h1>" None (Some ["cta"]) "gpt-5-mini" 0%nat
  = (inr [("notes", VStr "n/a");
          ("scores", VDict [("cta", entry 42 "Huge.")]);
          ("overall", VInt (-3))], 1%nat).
Proof.
  apply (complete_payload_passes_through false (Some "sk-test")
           (replies (VDict [("notes", VStr "n/a");
                            ("scores", VDict [("cta", entry 42 "Huge.")]);
                            ("overall", VInt (-3))]))
           "<h1>Hi</h1>" None (Some ["cta"]) "gpt-5-mini" 0%nat _
           [("cta", entry 42 "Huge.")]); try reflexivity.
  intros k [<-|[]]. left. reflexivity.
Defined.

Lemma mean2_numeric vals o :
  mean2 vals = inr o -> PyNum.is_int_or_float o = true.
Proof.
  unfold mean2. destruct vals as [|v vals]; [intros [= <-]; reflexivity|].
  destruct (PyNum.sum (v :: vals)) as [e|total]; [discriminate|].
  cbn [bind].
  destruct (PyNum.truediv total _) as [e|mean] eqn:Ed; [discriminate|].
  cbn [bind]. intros Hr.
  assert (exists f, mean = VFloat f) as [f ->].
  { unfold PyNum.truediv in Ed. cbn [PyNum.as_num] in Ed.
    destruct (PyNum.as_num total) as [[x|x]|]; [| |discriminate].
    - destruct (_ =? 0)%Z; [discriminate|].
      destruct (PyFloat.is_finite _); [|discriminate].
      injection Ed as <-. eauto.
    - cbn [PyNum.coerce bind ret] in Ed.
      destruct (PyNum.to_float _); [discriminate|]. cbn [bind] in Ed.
      destruct (PyFloat.is_zero _); [discriminate|].
      injection Ed as <-. eauto. }
  unfold PyNum.round2 in Hr. cbn [PyNum.as_num] in Hr.
  destruct (_ && _); [discriminate|]. injection Hr as <-. reflexivity.
Qed.

(** X7.  Normalising is idempotent: what the normaliser returns is a payload
    it returns unchanged. *)
Theorem normalize_idempotent cs data out :
  normalize cs data = inr out ->
  normalize cs (VDict out) = inr out.
Proof.
  intros H. destruct (normalize_inr _ _ _ H) as (d0 & -> & Hp).
  destruct (payload_scores d0) as [sc0|] eqn:Hsc.
  - destruct (normalize_spec _ _ _ _ Hsc H) as (Hs & Ho & Hn).
    apply (normalize_complete cs out (filled cs sc0)).
    + exact Hs.
    + intros c. apply filled_keys.
    + unfold overall_unusable. destruct (overall_unusable d0) eqn:Hov.
      * destruct Ho as (vals & o & _ & Hm & ->).
        rewrite (mean2_numeric _ _ Hm). reflexivity.
      * rewrite Ho. exact Hov.
    + apply (get_mem _ _ _ Hn).
  - assert (cs = []) as ->
      by (destruct cs; [reflexivity | elim Hp; congruence]).
    unfold payload_scores in Hsc.
    destruct (Dict.get "scores" d0) as [v|] eqn:Es; [|discriminate].
    unfold normalize in H |- *. cbn [as_dict bind ret foldM] in H |- *.
    rewrite (setdefault_mem "scores" _ d0) in H by (apply (get_mem _ _ _ Es)).
    destruct (overall_unusable d0) eqn:Hov.
    + exfalso. unfold lookup in H. rewrite Es in H.
      destruct v; discriminate.
    + cbn [bind ret] in H. injection H as <-.
      assert (Gs : Dict.get "scores" (Dict.setdefault "notes" (VStr "") d0)
                   = Some v) by (rewrite get_setdefault, Es; reflexivity).
      assert (Go : overall_unusable (Dict.setdefault "notes" (VStr "") d0)
                   = false).
      { unfold overall_unusable in Hov |- *. rewrite get_setdefault.
        destruct (Dict.get "overall" d0); [exact Hov | discriminate]. }
      assert (Gn : Dict.mem "notes" (Dict.setdefault "notes" (VStr "") d0)
                   = true).
      { unfold Dict.mem. rewrite get_setdefault.
        destruct (Dict.get "notes" d0); reflexivity. }
      rewrite (setdefault_mem "scores") by (apply (get_mem _ _ _ Gs)).
      rewrite Go. cbn [bind ret]. rewrite setdefault_mem by exact Gn.
      reflexivity.
Qed.

Lemma normalize_idempotent_witness :
  exists out,
    normalize ["clarity"] (VDict [("overall", VNone)]) = inr out /\
    normalize ["clarity"] (VDict out) = inr out.
Proof.
  eexists. split; [vm_compute; reflexivity|].
  apply (normalize_idempotent ["clarity"] (VDict [("overall", VNone)])).
  vm_compute. reflexivity.
Defined.

Lemma fill_missing_other cs k :
  k <> "scores" ->
  forall d d', foldM fill_missing cs d = inr d' ->
               Dict.get k d' = Dict.get k d.
Proof.
  intros Hk. induction cs as [|c cs IH]; intros d d' H.
  - injection H as <-. reflexivity.
  - cbn [foldM] in H. unfold fill_missing at 1 in H.
    destruct (lookup d "scores") as [e|sc]; [discriminate|].
    cbn [bind] in H. destruct (as_dict sc) as [e|scores]; [discriminate|].
    cbn [bind ret] in H. rewrite (IH _ _ H).
    apply get_set_other. exact Hk.
Qed.

(** X8.  The normaliser touches three keys only: every other member of the
    payload object is returned with the value it came with. *)
Theorem normalize_keeps_other_members cs d0 out k :
  normalize cs (VDict d0) = inr out ->
  k <> "scores" -> k <> "overall" -> k <> "notes" ->
  Dict.get k out = Dict.get k d0.
Proof.
  intros H Hs Ho Hn. unfold normalize in H. cbn [as_dict bind ret] in H.
  destruct (foldM fill_missing cs _) as [e|d2] eqn:E2; [discriminate|].
  cbn [bind] in H.
  pose proof (fill_missing_other cs k Hs _ _ E2) as G2.
  rewrite get_setdefault in G2. apply String.eqb_neq in Hs as Hs'.
  rewrite Hs' in G2.
  assert (G2' : Dict.get k d2 = Dict.get k d0)
    by (rewrite G2; destruct (Dict.get k d0); reflexivity).
  apply String.eqb_neq in Hn as Hn'.
  destruct (overall_unusable d2).
  - destruct (lookup d2 "scores") as [e|sc]; [discriminate|].
    cbn [bind] in H. destruct (as_dict sc) as [e|scores]; [discriminate|].
    cbn [bind] in H. destruct (mapM _ _) as [e|vals]; [discriminate|].
    cbn [bind] in H. destruct (mean2 vals) as [e|o]; [discriminate|].
    cbn [bind ret] in H. injection H as <-.
    rewrite get_setdefault, get_set_other, G2', Hn' by exact Ho.
    destruct (Dict.get k d0); reflexivity.
  - cbn [bind ret] in H. injection H as <-.
    rewrite get_setdefault, G2', Hn'. destruct (Dict.get k d0); reflexivity.
Qed.

Lemma normalize_keeps_other_members_witness :
  exists out,
    normalize ["cta"] (VDict [("model", VStr "x-1"); ("overall", VInt 7)])
    = inr out /\
    Dict.get "model" out = Some (VStr "x-1").
Proof.
  eexists. split; [vm_compute; reflexivity|].
  rewrite (normalize_keeps_other_members ["cta"]
             [("model", VStr "x-1"); ("overall", VInt 7)] _ "model");
    [reflexivity | vm_compute; reflexivity | discriminate | discriminate
    | discriminate].
Defined.

(** X9.  A payload that is not a JSON object, or whose [scores] member is
    present but is not an object, makes the attempt fail with an
    [AttributeError]: the answer is the result of [_mock_score] for the
    same page and criteria, with [notes] replaced by the fallback
    message. *)
Theorem malformed_payload_falls_back
    USE_MOCK KEY client html u c model n data :
  heuristic_mode USE_MOCK KEY = false ->
  request KEY client html u (list_or c DEFAULT_CRITERIA) model n
  = Parsed data ->
  (forall d, data <> VDict d) \/
  (exists d v, data = VDict d /\ Dict.get "scores" d = Some v
               /\ forall sc, v <> VDict sc) ->
  exists scores overall,
    _mock_score html (list_or c DEFAULT_CRITERIA)
    = inr [("scores", scores); ("overall", overall);
           ("notes", VStr "Mock mode: heuristic scoring")] /\
    llm_score_page USE_MOCK KEY client html u c model n
    = (inr [("scores", scores); ("overall", overall);
            ("notes", VStr "Mock fallback due to error: AttributeError")],
       S n).
Proof.
  intros Hm Hq Hbad.
  assert (Ha : llm_attempt KEY client html u (list_or c DEFAULT_CRITERIA)
                 model n = inl AttributeError).
  { unfold llm_attempt. rewrite Hq.
    destruct Hbad as [Hd|(d & v & -> & Hv & Hnd)].
    - destruct data; try reflexivity. elim (Hd d). reflexivity.
    - pose proof (list_or_nonempty c) as Hcs.
      destruct (list_or c DEFAULT_CRITERIA) as [|c0 cs]; [congruence|].
      unfold normalize. cbn [as_dict bind ret].
      rewrite (fill_missing_not_dict c0 cs _ v); [reflexivity | | exact Hnd].
      rewrite get_scores_default, Hv. reflexivity. }
  destruct (mock_score_ok html _ (list_or_nonempty c)) as (o & E & _).
  rewrite (score_page_fallback _ _ _ _ _ _ _ _ _ Hm Ha).
  unfold fallback. rewrite E. cbn [bind ret].
  eexists _, _. split; reflexivity.
Qed.

Lemma malformed_payload_falls_back_witness :
  _mock_score "<h1>Hi</h1>" ["cta"; "tone"]
  = inr [("scores",
          VDict [("cta", entry 6 "Add a prominent CTA.");
                 ("tone", entry 5 "OK")]);
         ("overall", VFloat (PyFloat.quot 11 2));
         ("notes", VStr "Mock mode: heuristic scoring")] /\
  llm_score_page false (Some "sk-test")
    (replies (VDict [("scores", VList [VInt 9; VInt 9])]))
    "<h1>Hi</h1>" None (Some ["cta"; "tone"]) "gpt-5-mini" 0%nat
  = (inr [("scores",
           VDict [("cta", entry 6 "Add a prominent CTA.");
                  ("tone", entry 5 "OK")]);
          ("overall", VFloat (PyFloat.quot 11 2));
          ("notes", VStr "Mock fallback due to error: AttributeError")],
     1%nat).
Proof.
  destruct (malformed_payload_falls_back false (Some "sk-test")
              (replies (VDict [("scores", VList [VInt 9; VInt 9])]))
              "<h1>Hi</h1>" None (Some ["cta"; "tone"]) "gpt-5-mini" 0%nat
              (VDict [("scores", VList [VInt 9; VInt 9])]) eq_refl eq_refl)
    as (scores & overall & E & R).
  - right. exists [("scores", VList [VInt 9; VInt 9])], (VList [VInt 9; VInt 9]).
    split; [reflexivity|]. split; [reflexivity|]. discriminate.
  - rewrite R. clear R. vm_compute in E. injection E as <- <-.
    split; vm_compute; reflexivity.
Defined.


(** ** The heuristic formulas *)

Lemma count_in_acc kws txt :
  forall a,
    fold_left (fun n k => n + (if contains k txt then 1 else 0)) kws a
    = a + count_in kws txt.
Proof.
  unfold count_in. induction kws as [|k kws IH]; intros a; simpl.
  - lia.
  - rewrite IH, (IH (if contains k txt then 1 else 0)). lia.
Qed.

Lemma count_in_cons k kws txt :
  count_in (k :: kws) txt
  = (if contains k txt then 1 else 0) + count_in kws txt.
Proof. unfold count_in at 1. simpl. apply count_in_acc. Qed.

Lemma count_in_range kws txt :
  0 <= count_in kws txt <= Z.of_nat (List.length kws).
Proof.
  induction kws as [|k kws IH]; [unfold count_in; simpl; lia|].
  rewrite count_in_cons. cbn [List.length].
  destruct (contains k txt); lia.
Qed.

Lemma count_in_member k kws txt :
  In k kws -> contains k txt = true -> 1 <= count_in kws txt.
Proof.
  induction kws as [|k0 kws IH]; [intros []|].
  intros [->|Hin] Hk; rewrite count_in_cons.
  - rewrite Hk. pose proof (count_in_range kws txt). lia.
  - specialize (IH Hin Hk). destruct (contains k0 txt); lia.
Qed.

Lemma prefix_app p q s :
  String.prefix (p ++ q) s = true -> String.prefix p s = true.
Proof.
  revert s. induction p as [|a p IH]; intros s;
    [destruct s; reflexivity|].
  destruct s as [|b s]; simpl; [auto|].
  destruct (ascii_dec a b); [apply IH | auto].
Qed.

Lemma contains_app_l p q s :
  contains (p ++ q) s = true -> contains p s = true.
Proof.
  induction s as [|b s IH]; cbn [contains]; intros H;
    apply orb_true_iff in H as [H|H]; apply orb_true_iff.
  - left. apply (prefix_app _ _ _ H).
  - discriminate H.
  - left. apply (prefix_app _ _ _ H).
  - right. apply IH, H.
Qed.

Lemma mock_get_clarity sg cs :
  In "clarity" cs ->
  Dict.get "clarity" (mock_scores sg cs) = Some (clarity sg).
Proof.
  intros H. apply requested_In in H.
  rewrite mock_scores_unfold, fill_get. unfold named_scores. rewrite H.
  destruct (requested "credibility" cs), (requested "cta" cs); reflexivity.
Qed.

Lemma mock_get_credibility sg cs :
  In "credibility" cs ->
  Dict.get "credibility" (mock_scores sg cs) = Some (credibility sg).
Proof.
  intros H. apply requested_In in H.
  rewrite mock_scores_unfold, fill_get. unfold named_scores. rewrite H.
  destruct (requested "clarity" cs), (requested "cta" cs); reflexivity.
Qed.

Lemma mock_get_cta sg cs :
  In "cta" cs -> Dict.get "cta" (mock_scores sg cs) = Some (cta sg).
Proof.
  intros H. apply requested_In in H.
  rewrite mock_scores_unfold, fill_get. unfold named_scores. rewrite H.
  destruct (requested "clarity" cs), (requested "credibility" cs);
    reflexivity.
Qed.

Lemma mock_get_unknown sg cs k :
  In k cs -> k <> "clarity" -> k <> "credibility" -> k <> "cta" ->
  Dict.get k (mock_scores sg cs) = Some (entry 5 "OK").
Proof.
  intros H H1 H2 H3. apply requested_In in H.
  rewrite mock_scores_unfold, fill_get, named_get_other, H by assumption.
  reflexivity.
Qed.

Lemma score_at_mock scores o notes c s fb :
  Dict.get c scores = Some (entry s fb) ->
  score_at [("scores", VDict scores); ("overall", o); ("notes", notes)] c
  = inr (VInt s) /\
  feedback_at [("scores", VDict scores); ("overall", o); ("notes", notes)] c
  = inr (VStr fb).
Proof.
  intros H. unfold score_at, feedback_at, lookup. cbn [Dict.get].
  simpl String.eqb. cbn [bind ret as_dict]. rewrite H. split; reflexivity.
Qed.

Lemma trust_kw_range html : 0 <= trust_kw (extract html) <= 11.
Proof. apply (count_in_range TRUST_KEYWORDS). Qed.

(** X10.  The scorer called with an empty criteria list raises
    [ZeroDivisionError]; [llm_score_page] never lets that happen, an
    empty list given by the caller being replaced by the default
    criteria exactly as a missing one is. *)
Theorem empty_criteria_guarded USE_MOCK KEY client html u model n :
  _mock_score html [] = inl ZeroDivisionError /\
  llm_score_page USE_MOCK KEY client html u (Some []) model n
  = llm_score_page USE_MOCK KEY client html u None model n /\
  exists r n',
    llm_score_page USE_MOCK KEY client html u (Some []) model n
    = (inr r, n').
Proof.
  split; [reflexivity|]. split; [reflexivity|].
  destruct (score_page_returns USE_MOCK KEY client html u (Some []) model n)
    as (r & n' & E & _).
  eauto.
Qed.

(** X11.  For the three criteria the heuristic knows, the score is the plain
    sum of the formula: the clamp to 1..10 never changes it.  Clarity
    and the call to action are never scored below 4 and credibility
    never below 3, so these scores use the upper part of the scale
    only. *)
Theorem heuristic_scores_unclamped html cs :
  cs <> [] ->
  let sg := extract html in
  exists r,
    _mock_score html cs = inr r /\
    (In "clarity" cs ->
     exists s,
       score_at r "clarity" = inr (VInt s) /\
       s = 4 + (if have_h1 sg then 3 else 0)
           + (if have_title sg then 2 else 0)
           + (if (50 <=? words sg)%Z && (words sg <=? 400)%Z then 1 else 0)
       /\ 4 <= s <= 10) /\
    (In "credibility" cs ->
     exists s,
       score_at r "credibility" = inr (VInt s) /\
       s = 3 + Z.min 7 (trust_kw sg) /\ 3 <= s <= 10) /\
    (In "cta" cs ->
     exists s,
       score_at r "cta" = inr (VInt s) /\
       s = 4 + (if have_btn sg then 4 else 0)
           + (if have_h1 sg then 2 else 0)
       /\ 4 <= s <= 10).
Proof.
  intros Hcs sg. destruct (mock_score_ok html cs Hcs) as (o & E & _).
  fold sg in E. eexists. split; [exact E|].
  pose proof (trust_kw_range html) as Ht. fold sg in Ht.
  split; [|split]; intros Hc.
  - eexists. split.
    + apply (score_at_mock _ _ _ _ _ _ (mock_get_clarity sg cs Hc)).
    + unfold clamp.
      destruct (have_h1 sg), (have_title sg),
        ((50 <=? words sg)%Z && (words sg <=? 400)%Z); split; lia.
  - eexists. split.
    + apply (score_at_mock _ _ _ _ _ _ (mock_get_credibility sg cs Hc)).
    + unfold clamp. split; lia.
  - eexists. split.
    + apply (score_at_mock _ _ _ _ _ _ (mock_get_cta sg cs Hc)).
    + unfold clamp. destruct (have_btn sg), (have_h1 sg); split; lia.
Qed.

Lemma heuristic_scores_unclamped_witness :
  DEFAULT_CRITERIA <> [] /\
  let sg := extract "<h1>Shop</h1> Sign up. Reviews, https" in
  exists r,
    _mock_score "<h1>Shop</h1> Sign up. Reviews, https" DEFAULT_CRITERIA
    = inr r /\
    score_at r "clarity" = inr (VInt 7) /\
    score_at r "credibility" = inr (VInt 6) /\
    score_at r "cta" = inr (VInt 10).
Proof.
  split; [discriminate|]. intros sg.
  destruct (heuristic_scores_unclamped
              "<h1>Shop</h1> Sign up. Reviews, https" DEFAULT_CRITERIA
              ltac:(discriminate))
    as (r & E & H1 & H2 & H3).
  exists r. split; [exact E|].
  destruct (H1 (or_introl eq_refl)) as (s1 & -> & -> & _).
  destruct (H2 (or_intror (or_introl eq_refl))) as (s2 & -> & -> & _).
  destruct (H3 (or_intror (or_intror (or_introl eq_refl))))
    as (s3 & -> & -> & _).
  repeat split.
Defined.

Lemma https_counts txt :
  contains "https" txt = true -> 1 <= count_in TRUST_KEYWORDS txt.
Proof.
  apply count_in_member. unfold TRUST_KEYWORDS. simpl. tauto.
Qed.

(** X12.  The credibility feedback takes three values only.  It is "Good
    trust signals." exactly when the text contains "https"; without
    "https" it asks for security information, and for testimonials as
    well when no trust keyword was found.  The request for testimonials
    never comes alone. *)
Theorem credibility_feedback_cases html cs :
  In "credibility" cs ->
  let sg := extract html in
  exists r,
    _mock_score html cs = inr r /\
    feedback_at r "credibility"
    = inr (VStr
             (if contains "https" (txt sg) then "Good trust signals."
              else if (trust_kw sg =? 0)%Z
                   then "Add testimonials/trust badges. Show security/privacy info."
                   else "Show security/privacy info.")).
Proof.
  intros Hc sg.
  assert (Hcs : cs <> []) by (intros ->; destruct Hc).
  destruct (mock_score_ok html cs Hcs) as (o & E & _). fold sg in E.
  eexists. split; [exact E|].
  assert (Hfb : exists s,
             credibility sg
             = entry s
                 (if contains "https" (txt sg) then "Good trust signals."
                  else if (trust_kw sg =? 0)%Z
                       then "Add testimonials/trust badges. Show security/privacy info."
                       else "Show security/privacy info.")).
  { unfold credibility. eexists. f_equal.
    destruct (contains "https" (txt sg)) eqn:Eh.
    - pose proof (https_counts _ Eh) as Hn.
      change (count_in TRUST_KEYWORDS (txt sg)) with (trust_kw sg) in Hn.
      destruct (Z.eqb_spec (trust_kw sg) 0); [lia | reflexivity].
    - destruct (trust_kw sg =? 0)%Z; reflexivity. }
  destruct Hfb as (s & Hfb).
  pose proof (mock_get_credibility sg cs Hc) as G. rewrite Hfb in G.
  apply (score_at_mock _ _ _ _ _ _ G).
Qed.

Lemma credibility_feedback_cases_witness :
  In "credibility" DEFAULT_CRITERIA /\
  exists r,
    _mock_score "Read our reviews" DEFAULT_CRITERIA = inr r /\
    feedback_at r "credibility" = inr (VStr "Show security/privacy info.").
Proof.
  split; [right; left; reflexivity|].
  destruct (credibility_feedback_cases "Read our reviews" DEFAULT_CRITERIA
              (or_intror (or_introl eq_refl)))
    as (r & E & F).
  exists r. split; [exact E | exact F].
Defined.

(** X13.  The keyword list holds both "review" and "reviews": a text that
    contains "reviews" counts two trust keywords, so its credibility
    score is 5 at least. *)
Theorem reviews_counts_twice html cs :
  In "credibility" cs ->
  contains "reviews" (txt (extract html)) = true ->
  exists r s,
    _mock_score html cs = inr r /\
    score_at r "credibility" = inr (VInt s) /\
    2 <= trust_kw (extract html) /\ 5 <= s <= 10.
Proof.
  intros Hc Hr.
  assert (Hcs : cs <> []) by (intros ->; destruct Hc).
  destruct (mock_score_ok html cs Hcs) as (o & E & _).
  assert (Hr' : contains "review" (txt (extract html)) = true)
    by (apply (contains_app_l "review" "s"), Hr).
  assert (H2 : 2 <= trust_kw (extract html)).
  { change (trust_kw (extract html))
      with (count_in TRUST_KEYWORDS (txt (extract html))).
    unfold TRUST_KEYWORDS. rewrite !count_in_cons, Hr, Hr'.
    pose proof (count_in_range
                  ["privacy"; "secure"; "https"; "iso"; "gdpr"; "clients";
                   "partners"] (txt (extract html))) as Hrest.
    rewrite !count_in_cons in Hrest.
    destruct (contains "trusted by" _), (contains "testimonials" _); lia. }
  eexists _, _. split; [exact E|]. split.
  - apply (score_at_mock _ _ _ _ _ _
             (mock_get_credibility (extract html) cs Hc)).
  - pose proof (trust_kw_range html). unfold clamp. split; [exact H2 | lia].
Qed.

Lemma reviews_counts_twice_witness :
  In "credibility" ["credibility"] /\
  contains "reviews" (txt (extract "<p>Customer REVIEWS</p>")) = true /\
  exists r,
    _mock_score "<p>Customer REVIEWS</p>" ["credibility"] = inr r /\
    score_at r "credibility" = inr (VInt 5).
Proof.
  split; [left; reflexivity|]. split; [reflexivity|].
  destruct (reviews_counts_twice "<p>Customer REVIEWS</p>" ["credibility"]
              (or_introl eq_refl) eq_refl)
    as (r & s & E & S & _).
  exists r. split; [exact E|].
  vm_compute in E. injection E as <-. reflexivity.
Defined.

(** X14.  A requested criterion other than "clarity", "credibility" and "cta",
    spelt exactly so, gets the score 5 and the feedback "OK" whatever
    the page is. *)
Theorem unknown_criterion_is_neutral html cs k :
  In k cs -> k <> "clarity" -> k <> "credibility" -> k <> "cta" ->
  exists r,
    _mock_score html cs = inr r /\
    score_at r k = inr (VInt 5) /\
    feedback_at r k = inr (VStr "OK").
Proof.
  intros Hk H1 H2 H3.
  assert (Hcs : cs <> []) by (intros ->; destruct Hk).
  destruct (mock_score_ok html cs Hcs) as (o & E & _).
  eexists. split; [exact E|].
  apply (score_at_mock _ _ _ _ _ _
           (mock_get_unknown (extract html) cs k Hk H1 H2 H3)).
Qed.

Lemma unknown_criterion_is_neutral_witness :
  exists r,
    _mock_score "<h1>Hi</h1>" ["Clarity"; "cta"] = inr r /\
    score_at r "Clarity" = inr (VInt 5) /\
    feedback_at r "Clarity" = inr (VStr "OK").
Proof.
  apply (unknown_criterion_is_neutral "<h1>Hi</h1>" ["Clarity"; "cta"]
           "Clarity");
    [left; reflexivity | discriminate | discriminate | discriminate].
Defined.

(** ** Tag stripping *)

Lemma sub_tags_from_drop s :
  forall k, sub_tags_from k s = sub_tags (drop k s).
Proof.
  unfold sub_tags. induction s as [|c t IH]; intros [|k]; try reflexivity.
  cbn [sub_tags_from drop]. apply IH.
Qed.

Lemma length_drop k :
  forall s, (String.length (drop k s) <= String.length s)%nat.
Proof.
  induction k as [|k IH]; intros [|c t]; simpl; try lia.
  specialize (IH t). lia.
Qed.

Lemma find_gt_none_no_tag s : find_gt s = None -> has_tag s = false.
Proof.
  induction s as [|c t IH]; [reflexivity|]. cbn [find_gt has_tag].
  destruct (Ascii.eqb c ">"); [discriminate|].
  destruct (find_gt t) eqn:E; [discriminate|]. intros _.
  unfold tag_tail. rewrite E, andb_false_r. apply IH. reflexivity.
Qed.

Lemma tag_tail_sub_tags t : tag_tail t = None -> tag_tail (sub_tags t) = None.
Proof.
  unfold tag_tail. destruct (find_gt t) as [[|k]|] eqn:E; try discriminate;
    intros _.
  - destruct t as [|c t]; [discriminate|]. cbn [find_gt] in E.
    destruct (Ascii.eqb_spec c ">") as [->|];
      [|destruct (find_gt t); discriminate].
    unfold sub_tags. cbn. reflexivity.
  - rewrite (sub_tags_no_tag _ (find_gt_none_no_tag _ E)), E. reflexivity.
Qed.

Lemma sub_tags_clean_upto n :
  forall s, (String.length s <= n)%nat -> has_tag (sub_tags s) = false.
Proof.
  induction n as [|n IH]; intros [|c t] Hlen; try reflexivity;
    [simpl in Hlen; lia|].
  simpl in Hlen. unfold sub_tags. cbn [sub_tags_from].
  destruct (Ascii.eqb_spec c "<") as [->|Hc].
  - destruct (tag_tail t) as [k|] eqn:Et.
    + cbn [has_tag]. rewrite sub_tags_from_drop. simpl Ascii.eqb.
      cbn [andb orb]. apply IH. pose proof (length_drop k t). lia.
    + cbn [has_tag]. fold (sub_tags t).
      rewrite (tag_tail_sub_tags _ Et), andb_false_r. cbn [orb].
      apply IH. lia.
  - cbn [has_tag]. apply Ascii.eqb_neq in Hc. rewrite Hc. cbn [andb orb].
    fold (sub_tags t). apply IH. lia.
Qed.

(** X15.  What [re.sub(r"<[^>]+>", " ", s)] returns contains no tag span any
    more, although the matches were taken left to right without a second
    pass: stripping the tags again changes nothing. *)
Theorem sub_tags_leaves_no_tag s :
  has_tag (sub_tags s) = false /\ sub_tags (sub_tags s) = sub_tags s.
Proof.
  assert (H : has_tag (sub_tags s) = false)
    by (apply (sub_tags_clean_upto (String.length s)); lia).
  split; [exact H | apply sub_tags_no_tag, H].
Qed.

(** ** Letter case *)

Lemma lower_char_idem c : lower_char (lower_char c) = lower_char c.
Proof. destruct c as [[] [] [] [] [] [] [] []]; reflexivity. Qed.

Lemma lower_idem s : lower (lower s) = lower s.
Proof.
  induction s as [|c t IH]; [reflexivity|]. cbn [lower].
  rewrite lower_char_idem, IH. reflexivity.
Qed.

Lemma lower_char_eqb_gt c : Ascii.eqb (lower_char c) ">" = Ascii.eqb c ">".
Proof. destruct c as [[] [] [] [] [] [] [] []]; reflexivity. Qed.

Lemma lower_char_eqb_lt c : Ascii.eqb (lower_char c) "<" = Ascii.eqb c "<".
Proof. destruct c as [[] [] [] [] [] [] [] []]; reflexivity. Qed.

Lemma find_gt_lower s : find_gt (lower s) = find_gt s.
Proof.
  induction s as [|c t IH]; [reflexivity|]. cbn [lower find_gt].
  rewrite lower_char_eqb_gt, IH. reflexivity.
Qed.

Lemma drop_lower k : forall s, drop k (lower s) = lower (drop k s).
Proof. induction k as [|k IH]; intros [|c t]; simpl; auto. Qed.

Lemma sub_tags_from_lower s :
  forall k, sub_tags_from k (lower s) = lower (sub_tags_from k s).
Proof.
  induction s as [|c t IH]; intros k; [reflexivity|].
  cbn [lower sub_tags_from]. destruct k as [|k]; [|apply IH].
  rewrite lower_char_eqb_lt. unfold tag_tail. rewrite find_gt_lower.
  destruct (Ascii.eqb c "<").
  - destruct (find_gt t) as [[|j]|]; cbn [lower]; rewrite IH; reflexivity.
  - cbn [lower]. rewrite IH. reflexivity.
Qed.

Lemma prefix_ci_lower p :
  forall s, prefix_ci p (lower s) = option_map lower (prefix_ci p s).
Proof.
  induction p as [|a p IH]; intros s; [reflexivity|].
  destruct s as [|b s]; [reflexivity|]. cbn [lower prefix_ci].
  rewrite lower_char_idem. destruct (Ascii.eqb _ _); [apply IH|reflexivity].
Qed.

Lemma contains_ci_cons p b s :
  contains_ci p (String b s)
  = match prefix_ci p (String b s) with
    | Some _ => true
    | None => contains_ci p s
    end.
Proof. reflexivity. Qed.

Lemma contains_ci_lower p s : contains_ci p (lower s) = contains_ci p s.
Proof.
  induction s as [|b s IH].
  - reflexivity.
  - change (lower (String b s)) with (String (lower_char b) (lower s)).
    rewrite !contains_ci_cons, IH.
    change (String (lower_char b) (lower s)) with (lower (String b s)).
    rewrite prefix_ci_lower.
    destruct (prefix_ci p (String b s)); reflexivity.
Qed.

Lemma element_here_lower o c s :
  element_here o c (lower s) = element_here o c s.
Proof.
  unfold element_here. rewrite prefix_ci_lower.
  destruct (prefix_ci o s) as [r|]; [|reflexivity]. cbn [option_map].
  rewrite find_gt_lower. destruct (find_gt r) as [k|]; [|reflexivity].
  rewrite drop_lower. apply contains_ci_lower.
Qed.

Lemma search_element_cons o c b s :
  search_element o c (String b s)
  = element_here o c (String b s) || search_element o c s.
Proof. reflexivity. Qed.

Lemma search_element_lower o c s :
  search_element o c (lower s) = search_element o c s.
Proof.
  induction s as [|b s IH].
  - reflexivity.
  - change (lower (String b s)) with (String (lower_char b) (lower s)).
    rewrite !search_element_cons, IH.
    change (String (lower_char b) (lower s)) with (lower (String b s)).
    rewrite element_here_lower. reflexivity.
Qed.

Lemma extract_lower html : extract (lower html) = extract html.
Proof.
  unfold extract, sub_tags.
  rewrite !search_element_lower, sub_tags_from_lower, !lower_idem.
  reflexivity.
Qed.

(** X16.  The heuristic ignores the case of the letters A-Z everywhere in the
    page, in tags and in text alike: two pages that differ in letter
    case only get the same result. *)
Theorem heuristic_ignores_case h1 h2 cs :
  lower h1 = lower h2 -> _mock_score h1 cs = _mock_score h2 cs.
Proof.
  intros H. unfold _mock_score.
  rewrite <- (extract_lower h1), <- (extract_lower h2), H. reflexivity.
Qed.

Lemma heuristic_ignores_case_witness :
  lower "<H1>Hello</H1> SIGN UP" = lower "<h1>hEllo</h1> sign up" /\
  _mock_score "<H1>Hello</H1> SIGN UP" DEFAULT_CRITERIA
  = _mock_score "<h1>hEllo</h1> sign up" DEFAULT_CRITERIA.
Proof.
  split; [reflexivity|].
  apply (heuristic_ignores_case "<H1>Hello</H1> SIGN UP"
           "<h1>hEllo</h1> sign up" DEFAULT_CRITERIA).
  reflexivity.
Defined.

(** ** The prompt *)

Lemma append_inv_head p x y : (p ++ x = p ++ y -> x = y)%string.
Proof.
  induction p as [|a p IH]; simpl; [auto|].
  intros [= H]. apply IH, H.
Qed.

Lemma length_append a b :
  String.length (a ++ b)%string = (String.length a + String.length b)%nat.
Proof. induction a as [|c a IH]; simpl; [reflexivity | rewrite IH; reflexivity]. Qed.

Lemma append_inv_tail t :
  forall a b, (a ++ t = b ++ t -> a = b)%string.
Proof.
  induction a as [|x a IH]; intros [|y b] H.
  - reflexivity.
  - apply (f_equal String.length) in H. simpl in H.
    rewrite length_append in H. lia.
  - apply (f_equal String.length) in H. simpl in H.
    rewrite length_append in H. lia.
  - simpl in H. injection H as -> H. f_equal. apply IH, H.
Qed.

(** X17.  The page goes into the prompt whole: for a given URL and criteria
    list, two different pages never give the same messages.  A missing
    URL and an empty one give the same prompt. *)
Theorem prompt_determines_page h1 h2 u cs :
  (_build_messages h1 u cs = _build_messages h2 u cs -> h1 = h2) /\
  _build_messages h1 (Some "") cs = _build_messages h1 None cs /\
  map role (_build_messages h1 u cs) = ["system"; "user"].
Proof.
  split; [|split; reflexivity].
  unfold _build_messages. intros H. injection H as H.
  repeat first [apply append_inv_head in H | injection H as H].
  apply (append_inv_tail _ _ _ H).
Qed.

(** ** Criteria are scored one by one *)

Lemma mock_get_any sg cs1 cs2 c :
  In c cs1 -> In c cs2 ->
  Dict.get c (mock_scores sg cs1) = Dict.get c (mock_scores sg cs2)
  /\ exists s fb, Dict.get c (mock_scores sg cs1) = Some (entry s fb).
Proof.
  intros H1 H2.
  destruct (string_dec c "clarity") as [->|N1].
  { rewrite !mock_get_clarity by assumption. unfold clarity. eauto. }
  destruct (string_dec c "credibility") as [->|N2].
  { rewrite !mock_get_credibility by assumption. unfold credibility. eauto. }
  destruct (string_dec c "cta") as [->|N3].
  { rewrite !mock_get_cta by assumption. unfold cta. eauto. }
  rewrite !mock_get_unknown by assumption. eauto.
Qed.

(** X19.  The entry of a criterion does not depend on which other criteria are
    requested with it, nor on their order or repetition: only [overall]
    depends on the list as a whole. *)
Theorem criteria_scored_independently html cs1 cs2 c :
  In c cs1 -> In c cs2 ->
  exists r1 r2 s fb,
    _mock_score html cs1 = inr r1 /\
    _mock_score html cs2 = inr r2 /\
    score_at r1 c = inr (VInt s) /\ score_at r2 c = inr (VInt s) /\
    feedback_at r1 c = inr (VStr fb) /\ feedback_at r2 c = inr (VStr fb).
Proof.
  intros H1 H2.
  assert (N1 : cs1 <> []) by (intros ->; destruct H1).
  assert (N2 : cs2 <> []) by (intros ->; destruct H2).
  destruct (mock_score_ok html cs1 N1) as (o1 & E1 & _).
  destruct (mock_score_ok html cs2 N2) as (o2 & E2 & _).
  destruct (mock_get_any (extract html) cs1 cs2 c H1 H2)
    as (G & s & fb & G1).
  assert (G2 : Dict.get c (mock_scores (extract html) cs2)
               = Some (entry s fb)) by (rewrite <- G; exact G1).
  destruct (score_at_mock _ (VFloat o1)
              (VStr "Mock mode: heuristic scoring") _ _ _ G1) as (S1 & F1).
  destruct (score_at_mock _ (VFloat o2)
              (VStr "Mock mode: heuristic scoring") _ _ _ G2) as (S2 & F2).
  eexists _, _, s, fb. split; [exact E1|]. split; [exact E2|]. auto.
Qed.

Lemma criteria_scored_independently_witness :
  exists r1 r2 s fb,
    _mock_score "<h1>Hi</h1>" ["cta"] = inr r1 /\
    _mock_score "<h1>Hi</h1>" ["tone"; "cta"; "clarity"; "cta"] = inr r2 /\
    score_at r1 "cta" = inr (VInt s) /\ score_at r2 "cta" = inr (VInt s) /\
    feedback_at r1 "cta" = inr (VStr fb) /\
    feedback_at r2 "cta" = inr (VStr fb).
Proof.
  apply (criteria_scored_independently "<h1>Hi</h1>" ["cta"]
           ["tone"; "cta"; "clarity"; "cta"] "cta").
  - left. reflexivity.
  - right. left. reflexivity.
Defined.

(** ** Outage and unprotected failures of the comparison *)

Lemma side_set_notes r v c : side (Dict.set "notes" v r) c = side r c.
Proof.
  unfold side, lookup. rewrite !get_set_other by discriminate. reflexivity.
Qed.

Lemma delta_loop_set_notes rb ra vb va l :
  forall d0,
    foldM (delta_step (Dict.set "notes" vb rb) (Dict.set "notes" va ra)) l d0
    = foldM (delta_step rb ra) l d0.
Proof.
  induction l as [|c l IH]; intros d0; [reflexivity|].
  cbn [foldM]. unfold delta_step at 1 3. rewrite !side_set_notes.
  destruct (side rb c) as [e|b]; [reflexivity|]. cbn [bind].
  destruct (side ra c) as [e|a]; [reflexivity|]. cbn [bind].
  destruct (PyNum.sub a b) as [e|d]; [reflexivity|]. cbn [bind].
  destruct (PyNum.round2 d) as [e|r]; [reflexivity|]. cbn [bind ret].
  apply IH.
Qed.

(** X20.  When both requests of a comparison fail, [compare_pages] returns
    what it returns in forced heuristic mode, with the same [delta]; only
    the two [notes] differ, naming the two errors. *)
Theorem outage_keeps_delta KEY client req n eb ea :
  heuristic_mode false KEY = false ->
  let cs := list_or (criteria req) DEFAULT_CRITERIA in
  request KEY client (before_html req) (url req) cs "gpt-5-mini" n
  = Raised eb ->
  request KEY client (after_html req) (url req) cs "gpt-5-mini" (S n)
  = Raised ea ->
  exists before after delta,
    compare_pages true KEY client req n
    = (inr [("before", VDict before); ("after", VDict after);
            ("delta", VDict delta)], n) /\
    compare_pages false KEY client req n
    = (inr [("before",
             VDict (Dict.set "notes"
                      (VStr ("Mock fallback due to error: "
                             ++ class_name eb)) before));
            ("after",
             VDict (Dict.set "notes"
                      (VStr ("Mock fallback due to error: "
                             ++ class_name ea)) after));
            ("delta", VDict delta)], S (S n)).
Proof.
  intros Hm cs Hb Ha.
  destruct (compare_heuristic true KEY client req n eq_refl)
    as (rb & ra & delta & Eb & Ea & _ & _ & L & C).
  fold cs in Eb, Ea, L.
  exists rb, ra, delta. split; [exact C|].
  pose proof (list_or_idem (criteria req)) as Hi. fold cs in Hi.
  unfold compare_pages, io_bind, io_lift. fold cs.
  rewrite (score_page_fallback false KEY client _ _ _ _ n eb Hm);
    [|unfold llm_attempt; rewrite Hi, Hb; reflexivity].
  rewrite Hi. unfold fallback at 1. rewrite Eb. cbn [bind ret].
  rewrite (score_page_fallback false KEY client _ _ _ _ (S n) ea Hm);
    [|unfold llm_attempt; rewrite Hi, Ha; reflexivity].
  rewrite Hi. unfold fallback at 1. rewrite Ea. cbn [bind ret].
  rewrite delta_loop_set_notes, L. reflexivity.
Qed.

Lemma outage_keeps_delta_witness :
  exists before after delta,
    compare_pages true (Some "sk-test") (fails "APIConnectionError")
      {| before_html := ""; after_html := "<h1>New</h1>"; url := None;
         criteria := None |} 0%nat
    = (inr [("before", VDict before); ("after", VDict after);
            ("delta", VDict delta)], 0%nat) /\
    compare_pages false (Some "sk-test") (fails "APIConnectionError")
      {| before_html := ""; after_html := "<h1>New</h1>"; url := None;
         criteria := None |} 0%nat
    = (inr [("before",
             VDict (Dict.set "notes"
                      (VStr "Mock fallback due to error: APIConnectionError")
                      before));
            ("after",
             VDict (Dict.set "notes"
                      (VStr "Mock fallback due to error: APIConnectionError")
                      after));
            ("delta", VDict delta)], 2%nat).
Proof.
  apply (outage_keeps_delta (Some "sk-test") (fails "APIConnectionError")
           {| before_html := ""; after_html := "<h1>New</h1>"; url := None;
              criteria := None |} 0%nat
           (Exn "APIConnectionError") (Exn "APIConnectionError"));
    reflexivity.
Defined.

(** X21.  [compare_pages] reads the scores outside any [try]: when the answer
    for the first page has no readable [score] in the entry of the first
    requested criterion (the model's entry lacks the key, or is not an
    object: the normaliser does not look inside entries), the error of
    that lookup leaves [compare_pages], after both requests were sent. *)
Theorem compare_raises_on_unreadable_score
    USE_MOCK KEY client req n c0 cs before n1 e :
  list_or (criteria req) DEFAULT_CRITERIA = c0 :: cs ->
  llm_score_page USE_MOCK KEY client (before_html req) (url req)
    (Some (c0 :: cs)) "gpt-5-mini" n = (inr before, n1) ->
  score_at before c0 = inl e ->
  compare_pages USE_MOCK KEY client req n
  = (inl e, if heuristic_mode USE_MOCK KEY then n else S (S n)).
Proof.
  intros Hcs Hb He.
  unfold compare_pages, io_bind, io_lift. rewrite Hcs, Hb.
  pose proof (score_page_count USE_MOCK KEY client (before_html req)
                (url req) (Some (c0 :: cs)) "gpt-5-mini" n) as Cb.
  rewrite Hb in Cb. cbn [snd] in Cb.
  destruct (score_page_returns USE_MOCK KEY client (after_html req)
              (url req) (Some (c0 :: cs)) "gpt-5-mini" n1)
    as (ra & n2 & Ea & _).
  pose proof (score_page_count USE_MOCK KEY client (after_html req)
                (url req) (Some (c0 :: cs)) "gpt-5-mini" n1) as Ca.
  rewrite Ea in Ca |- *. cbn [snd] in Ca.
  pose proof (score_page_answers _ _ _ _ _ _ _ _ _ _ Hb) as Hans.
  cbn [list_or] in Hans.
  pose proof (side_answers _ _ c0 Hans (or_introl eq_refl)) as Hs.
  cbn [app foldM]. unfold delta_step at 1. rewrite Hs, He. cbn [bind].
  f_equal. destruct (heuristic_mode USE_MOCK KEY); congruence.
Qed.

Lemma compare_raises_on_unreadable_score_witness :
  compare_pages false (Some "sk-test")
    (replies (VDict [("scores",
                      VDict [("clarity", VDict [("feedback", VStr "Fine.")])]);
                     ("overall", VInt 7)]))
    {| before_html := ""; after_html := "<h1>New</h1>"; url := None;
       criteria := Some ["clarity"] |} 0%nat
  = (inl KeyError, 2%nat).
Proof.
  apply (compare_raises_on_unreadable_score false (Some "sk-test")
           (replies (VDict [("scores",
                             VDict [("clarity",
                                     VDict [("feedback", VStr "Fine.")])]);
                            ("overall", VInt 7)]))
           {| before_html := ""; after_html := "<h1>New</h1>";
              url := None; criteria := Some ["clarity"] |} 0%nat
           "clarity" [] _ 1%nat KeyError eq_refl eq_refl eq_refl).
Defined.

(** ** A single criterion *)

Lemma single_scores sg cs c :
  In c cs -> (forall k, In k cs -> k = c) ->
  exists s fb, mock_scores sg cs = [(c, entry s fb)] /\ 1 <= s <= 10.
Proof.
  intros Hin Hall.
  pose proof (mock_scores_keys sg cs) as K.
  pose proof (mock_scores_nodup sg cs) as N.
  pose proof (mock_scores_scored sg cs) as S.
  destruct (mock_scores sg cs) as [|[k v] d].
  - apply K in Hin. destruct Hin.
  - assert (Hk : k = c) by (apply Hall, K; left; reflexivity).
    subst k. destruct d as [|[k2 v2] d].
    + inversion S as [|? ? (z & fb & Hv & Hz) _]. cbn [snd] in Hv. subst v.
      exists z, fb. split; [reflexivity | exact Hz].
    + assert (Hk2 : k2 = c)
        by (apply Hall, K; right; left; reflexivity).
      subst k2. inversion N as [|? ? Hn _]. elim Hn. left. reflexivity.
Qed.

(** X22.  When one criterion only is requested, however often it is repeated,
    [overall] equals the score of that criterion: the mean of one value,
    rounded to two places, is that value. *)
Theorem single_criterion_overall html cs c :
  In c cs -> (forall k, In k cs -> k = c) ->
  exists r s o,
    _mock_score html cs = inr r /\
    score_at r c = inr (VInt s) /\
    Dict.get "overall" r = Some (VFloat o) /\
    PyNum.eqb (VFloat o) (VInt s) = true.
Proof.
  intros Hin Hall.
  destruct (single_scores (extract html) cs c Hin Hall)
    as (s & fb & E & R).
  assert (Hs : s = 1 \/ s = 2 \/ s = 3 \/ s = 4 \/ s = 5 \/ s = 6 \/ s = 7
               \/ s = 8 \/ s = 9 \/ s = 10) by lia.
  assert (Hm : _mock_score html cs
               = inr [("scores", VDict [(c, entry s fb)]);
                      ("overall",
                       VFloat (PyFloat.round2 (PyFloat.quot s 1)));
                      ("notes", VStr "Mock mode: heuristic scoring")]).
  { unfold _mock_score. rewrite E.
    repeat (destruct Hs as [->|Hs]; [vm_compute; reflexivity|]).
    subst s. vm_compute. reflexivity. }
  eexists _, s, _. split; [exact Hm|]. split; [|split; [reflexivity|]].
  - apply (score_at_mock _ _ _ c s fb). unfold Dict.get. cbn [find].
    cbn [fst snd]. rewrite String.eqb_refl. reflexivity.
  - repeat (destruct Hs as [->|Hs]; [vm_compute; reflexivity|]).
    subst s. vm_compute. reflexivity.
Qed.

Lemma single_criterion_overall_witness :
  exists r s o,
    _mock_score "<h1>Hi</h1> Sign up" ["cta"; "cta"] = inr r /\
    score_at r "cta" = inr (VInt s) /\
    Dict.get "overall" r = Some (VFloat o) /\
    PyNum.eqb (VFloat o) (VInt s) = true.
Proof.
  apply (single_criterion_overall "<h1>Hi</h1> Sign up" ["cta"; "cta"] "cta").
  - left. reflexivity.
  - intros k [<-|[<-|[]]]; reflexivity.
Defined.
